(** * A shallow embedding of the SAUCE record parser (package [sauce], file
    [sauce.go]) and the properties of its decoder.

    Conventions of the embedding:
    - a Go [[]byte] is a [list byte]; [len] is [Z.of_nat (length b)];
    - a Go [string] is a [string] (a sequence of 8-bit characters);
    - [uint8], [uint16], [uint32] and [int] values are integers in [Z];
    - an operation that can panic at run time (indexing, slicing) lives in the
      monad [go], whose second constructor is the panic;
    - a Go result pair [(r *SAUCE, err error)] is a pair of options, [None]
      standing for [nil]. *)

From Stdlib Require Import ZArith List String Ascii Strings.Byte Bool Lia.
From stdpp Require Import base option list gmap strings.

Import ListNotations.
Local Open Scope string_scope.
Local Open Scope Z_scope.

(** ** Run-time panics *)

Inductive go (A : Type) : Type :=
| ret (a : A)
| panic (msg : string).

Arguments ret {A} a.
Arguments panic {A} msg.

Definition bind {A B : Type} (m : go A) (k : A -> go B) : go B :=
  match m with
  | ret a => k a
  | panic msg => panic msg
  end.

Declare Scope go_scope.
Delimit Scope go_scope with go.
Notation "x <- m ;; k" := (bind m (fun x => k))
  (at level 100, m at level 99, k at level 200, right associativity) : go_scope.
Local Open Scope go_scope.

Definition returns {A : Type} (m : go A) : Prop := exists a, m = ret a.

(** ** Slices, indexing and conversions *)

Definition len {A : Type} (b : list A) : Z := Z.of_nat (length b).

(** [b[i]]: panics unless [0 <= i < len(b)]. *)
Definition index {A : Type} (b : list A) (i : Z) : go A :=
  match (if 0 <=? i then b !! Z.to_nat i else None) with
  | Some x => ret x
  | None => panic "index out of range"
  end.

(** [b[lo:hi]]: panics unless [0 <= lo <= hi <= len(b)].  (Go allows [hi] up
    to the capacity of a slice; the embedding takes a slice whose capacity is
    its length, the strictest case.) *)
Definition slice {A : Type} (b : list A) (lo hi : Z) : go (list A) :=
  if (0 <=? lo) && (lo <=? hi) && (hi <=? len b)
  then ret (take (Z.to_nat (hi - lo)) (drop (Z.to_nat lo) b))
  else panic "slice bounds out of range".

(** [b[lo:]] is [b[lo:len(b)]]. *)
Definition slice_from {A : Type} (b : list A) (lo : Z) : go (list A) :=
  slice b lo (len b).

(** [s[lo:hi]] on a string. *)
Definition strslice (s : string) (lo hi : Z) : go string :=
  if (0 <=? lo) && (lo <=? hi) && (hi <=? Z.of_nat (String.length s))
  then ret (substring (Z.to_nat lo) (Z.to_nat (hi - lo)) s)
  else panic "slice bounds out of range".

(** [uint8(x)] of a byte. *)
Definition uint8 (x : byte) : Z := Z.of_N (Byte.to_N x).

(** The value of a character of a string, as the byte it is. *)
Definition byteval (c : ascii) : Z := Z.of_N (N_of_ascii c).

(** [s[i]] on a string, for an index in range ([0] otherwise; every use below
    is guarded by the loop condition of the source). *)
Definition strbyte (s : string) (i : nat) : Z :=
  match String.get i s with
  | Some c => byteval c
  | None => 0
  end.

(** [s[i:]] and [s[i:j]] for indices already known to be in range. *)
Definition strdrop (i : nat) (s : string) : string :=
  substring i (String.length s - i) s.

(** ** encoding/binary *)

Module binary.

(** [LittleEndian.Uint16]: the bounds check on [b[1]], then the two bytes. *)
Definition Uint16 (b : list byte) : go Z :=
  _ <- index b 1 ;;
  b0 <- index b 0 ;;
  b1 <- index b 1 ;;
  ret (Z.lor (uint8 b0) (Z.shiftl (uint8 b1) 8)).

(** [LittleEndian.Uint32]: the bounds check on [b[3]], then the four bytes. *)
Definition Uint32 (b : list byte) : go Z :=
  _ <- index b 3 ;;
  b0 <- index b 0 ;;
  b1 <- index b 1 ;;
  b2 <- index b 2 ;;
  b3 <- index b 3 ;;
  ret (Z.lor (Z.lor (Z.lor (uint8 b0) (Z.shiftl (uint8 b1) 8))
                    (Z.shiftl (uint8 b2) 16))
             (Z.shiftl (uint8 b3) 24)).

End binary.

(** ** bytes *)

#[global] Instance byte_eq_decision : EqDecision byte := Byte.byte_eq_dec.

Module bytes.

Definition Equal (a b : list byte) : bool := bool_decide (a = b).

End bytes.

(** ** unicode/utf8 and unicode, as far as [strings.TrimSpace] needs them *)

Module utf8.

Definition RuneError : Z := 65533.
Definition RuneSelf : Z := 128.
Definition UTFMax : Z := 4.

Definition locb : Z := 128.
Definition hicb : Z := 191.

(** The [first] table: information about the first byte of an encoding. *)
Definition xx : Z := 241.
Definition as_ : Z := 240.

Definition first (b : Z) : Z :=
  if b <? 128 then as_
  else if b <? 194 then xx
  else if b <? 224 then 2
  else if b =? 224 then 19
  else if b <? 237 then 3
  else if b =? 237 then 35
  else if b <? 240 then 3
  else if b =? 240 then 52
  else if b <? 244 then 4
  else if b =? 244 then 68
  else xx.

Definition acceptRanges (i : Z) : Z * Z :=
  if i =? 0 then (locb, hicb)
  else if i =? 1 then (160, hicb)
  else if i =? 2 then (locb, 159)
  else if i =? 3 then (144, hicb)
  else if i =? 4 then (locb, 143)
  else (0, 0).

Definition maskx : Z := 63.
Definition mask2 : Z := 31.
Definition mask3 : Z := 15.
Definition mask4 : Z := 7.

Definition DecodeRuneInString (s : string) : Z * nat :=
  let n := String.length s in
  if (n <? 1)%nat then (RuneError, 0%nat) else
  let s0 := strbyte s 0 in
  let x := first s0 in
  if as_ <=? x then ((if x =? as_ then s0 else RuneError), 1%nat) else
  let sz := Z.to_nat (Z.land x 7) in
  let accept := acceptRanges (Z.shiftr x 4) in
  if (n <? sz)%nat then (RuneError, 1%nat) else
  let s1 := strbyte s 1 in
  if (s1 <? fst accept) || (snd accept <? s1) then (RuneError, 1%nat) else
  if (sz <=? 2)%nat
  then (Z.lor (Z.shiftl (Z.land s0 mask2) 6) (Z.land s1 maskx), 2%nat) else
  let s2 := strbyte s 2 in
  if (s2 <? locb) || (hicb <? s2) then (RuneError, 1%nat) else
  if (sz <=? 3)%nat
  then (Z.lor (Z.lor (Z.shiftl (Z.land s0 mask3) 12)
                     (Z.shiftl (Z.land s1 maskx) 6))
              (Z.land s2 maskx), 3%nat) else
  let s3 := strbyte s 3 in
  if (s3 <? locb) || (hicb <? s3) then (RuneError, 1%nat) else
  (Z.lor (Z.lor (Z.lor (Z.shiftl (Z.land s0 mask4) 18)
                       (Z.shiftl (Z.land s1 maskx) 12))
                (Z.shiftl (Z.land s2 maskx) 6))
         (Z.land s3 maskx), 4%nat).

Definition RuneStart (b : Z) : bool := negb (Z.land b 192 =? 128).

(** The backward scan of [DecodeLastRuneInString]: from [start], at most down
    to [lim], for a byte that can start an encoding. *)
Fixpoint backup (s : string) (lim : Z) (fuel : nat) (start : Z) : Z :=
  match fuel with
  | O => start
  | S fuel' =>
      if start <? lim then start
      else if RuneStart (strbyte s (Z.to_nat start)) then start
      else backup s lim fuel' (start - 1)
  end.

Definition DecodeLastRuneInString (s : string) : Z * nat :=
  let end_ := Z.of_nat (String.length s) in
  if end_ =? 0 then (RuneError, 0%nat) else
  let start := end_ - 1 in
  let r := strbyte s (Z.to_nat start) in
  if r <? RuneSelf then (r, 1%nat) else
  let lim := Z.max 0 (end_ - UTFMax) in
  let start := backup s lim 4 (start - 1) in
  let start := Z.max 0 start in
  let '(r, size) := DecodeRuneInString (strdrop (Z.to_nat start) s) in
  if negb (start + Z.of_nat size =? end_) then (RuneError, 1%nat)
  else (r, size).

End utf8.

Module unicode.

Definition MaxLatin1 : Z := 255.

(** [White_Space] above Latin-1. *)
Definition White_Space_above_Latin1 (r : Z) : bool :=
  (r =? 5760) || ((8192 <=? r) && (r <=? 8202)) ||
  ((8232 <=? r) && (r <=? 8233)) || (r =? 8239) || (r =? 8287) || (r =? 12288).

Definition IsSpace (r : Z) : bool :=
  if (0 <=? r) && (r <=? MaxLatin1)
  then (r =? 9) || (r =? 10) || (r =? 11) || (r =? 12) || (r =? 13) ||
       (r =? 32) || (r =? 133) || (r =? 160)
  else White_Space_above_Latin1 r.

End unicode.

Module strings.

Definition asciiSpace (c : Z) : bool :=
  (c =? 9) || (c =? 10) || (c =? 11) || (c =? 12) || (c =? 13) || (c =? 32).

(** [for i, r := range s { if f(r) == truth { return i } }; return -1],
    the string being walked one byte at a time and [skip] counting the bytes
    left of the rune decoded last. *)
Fixpoint indexFunc_from (f : Z -> bool) (truth : bool)
    (s : string) (skip i : nat) : Z :=
  match s with
  | EmptyString => -1
  | String _ s' =>
      match skip with
      | S k => indexFunc_from f truth s' k (S i)
      | O =>
          let '(r, size) := utf8.DecodeRuneInString s in
          if Bool.eqb (f r) truth then Z.of_nat i
          else indexFunc_from f truth s' (size - 1) (S i)
      end
  end.

Definition indexFunc (s : string) (f : Z -> bool) (truth : bool) : Z :=
  indexFunc_from f truth s 0 0.

(** [for i := len(s); i > 0; { r, size := DecodeLastRuneInString(s[0:i]);
    i -= size; if f(r) == truth { return i } }; return -1]. *)
Fixpoint lastIndexFunc_from (f : Z -> bool) (truth : bool)
    (s : string) (i skip : nat) : Z :=
  match i with
  | O => -1
  | S i' =>
      match skip with
      | S k => lastIndexFunc_from f truth s i' k
      | O =>
          let '(r, size) := utf8.DecodeLastRuneInString (substring 0 i s) in
          if Bool.eqb (f r) truth then Z.of_nat (i - size)
          else lastIndexFunc_from f truth s i' (size - 1)
      end
  end.

Definition lastIndexFunc (s : string) (f : Z -> bool) (truth : bool) : Z :=
  lastIndexFunc_from f truth s (String.length s) 0.

Definition TrimLeftFunc (s : string) (f : Z -> bool) : string :=
  let i := indexFunc s f false in
  if i =? -1 then "" else strdrop (Z.to_nat i) s.

Definition TrimRightFunc (s : string) (f : Z -> bool) : string :=
  let i := lastIndexFunc s f false in
  let i :=
    if (0 <=? i) && (utf8.RuneSelf <=? strbyte s (Z.to_nat i))
    then i + Z.of_nat (snd (utf8.DecodeRuneInString (strdrop (Z.to_nat i) s)))
    else i + 1 in
  substring 0 (Z.to_nat i) s.

Definition TrimFunc (s : string) (f : Z -> bool) : string :=
  TrimRightFunc (TrimLeftFunc s f) f.

(** The first loop of [TrimSpace], over the bytes from [start] on: where it
    stops, and whether it stopped on a byte that is not ASCII. *)
Fixpoint scanLeft (rest : string) (start : nat) : nat * bool :=
  match rest with
  | EmptyString => (start, false)
  | String c rest' =>
      let c := byteval c in
      if utf8.RuneSelf <=? c then (start, true)
      else if asciiSpace c then scanLeft rest' (S start)
      else (start, false)
  end.

(** The second loop, [stop] going down while [stop > start]. *)
Fixpoint scanRight (s : string) (start stop : nat) : nat * bool :=
  match stop with
  | O => (stop, false)
  | S stop' =>
      if (stop <=? start)%nat then (stop, false)
      else
        let c := strbyte s stop' in
        if utf8.RuneSelf <=? c then (stop, true)
        else if asciiSpace c then scanRight s start stop'
        else (stop, false)
  end.

Definition TrimSpace (s : string) : string :=
  let '(start, nonascii) := scanLeft s 0 in
  if nonascii then TrimFunc (strdrop start s) unicode.IsSpace
  else
    let '(stop, nonascii) := scanRight s start (String.length s) in
    if nonascii
    then TrimRightFunc (substring start (stop - start) s) unicode.IsSpace
    else substring start (stop - start) s.

(** *** [Trim] *)

(** [for len(s) > 0 && in(s[0]) { s = s[1:] }], the loop shared by
    [trimLeftByte] and [trimLeftASCII]. *)
Fixpoint trimLeftLoop (member : Z -> bool) (s : string) : string :=
  match s with
  | EmptyString => EmptyString
  | String c s' => if member (byteval c) then trimLeftLoop member s' else s
  end.

(** [for len(s) > 0 && in(s[len(s)-1]) { s = s[:len(s)-1] }], as the length
    that is left of [s]. *)
Fixpoint trimRightLoop (member : Z -> bool) (s : string) (n : nat) : nat :=
  match n with
  | O => O
  | S n' => if member (strbyte s n') then trimRightLoop member s n' else n
  end.

Definition trimLeftByte (s : string) (c : Z) : string :=
  trimLeftLoop (Z.eqb c) s.

Definition trimRightByte (s : string) (c : Z) : string :=
  substring 0 (trimRightLoop (Z.eqb c) s (String.length s)) s.

(** [makeASCIISet]: the set of the bytes of [chars], and whether all of them
    are ASCII. *)
Fixpoint makeASCIISet (chars : string) : option (Z -> bool) :=
  match chars with
  | EmptyString => Some (fun _ => false)
  | String c chars' =>
      if utf8.RuneSelf <=? byteval c then None
      else
        match makeASCIISet chars' with
        | Some set => Some (fun x => (x =? byteval c) || set x)
        | None => None
        end
  end.

Definition trimLeftASCII (s : string) (set : Z -> bool) : string :=
  trimLeftLoop set s.

Definition trimRightASCII (s : string) (set : Z -> bool) : string :=
  substring 0 (trimRightLoop set s (String.length s)) s.

Definition chr (v : Z) : ascii := ascii_of_N (Z.to_N v).

(** [string(r)] for a valid rune: its UTF-8 encoding. *)
Definition EncodeRune (r : Z) : string :=
  if r <=? 127 then String (chr r) ""
  else if r <=? 2047 then
    String (chr (Z.lor 192 (Z.shiftr r 6)))
      (String (chr (Z.lor 128 (Z.land r 63))) "")
  else if r <=? 65535 then
    String (chr (Z.lor 224 (Z.shiftr r 12)))
      (String (chr (Z.lor 128 (Z.land (Z.shiftr r 6) 63)))
        (String (chr (Z.lor 128 (Z.land r 63))) ""))
  else
    String (chr (Z.lor 240 (Z.shiftr r 18)))
      (String (chr (Z.lor 128 (Z.land (Z.shiftr r 12) 63)))
        (String (chr (Z.lor 128 (Z.land (Z.shiftr r 6) 63)))
          (String (chr (Z.lor 128 (Z.land r 63))) ""))).

Definition ValidRune (r : Z) : bool :=
  ((0 <=? r) && (r <? 55296)) || ((57343 <? r) && (r <=? 1114111)).

Fixpoint IndexByte_found (s : string) (c : Z) : bool :=
  match s with
  | EmptyString => false
  | String a s' => (byteval a =? c) || IndexByte_found s' c
  end.

(** [ContainsRune(s, r)], that is [IndexRune(s, r) >= 0]. *)
Definition ContainsRune (s : string) (r : Z) : bool :=
  if (0 <=? r) && (r <? utf8.RuneSelf) then IndexByte_found s r
  else if r =? utf8.RuneError
  then negb (indexFunc s (fun x => x =? utf8.RuneError) true =? -1)
  else if negb (ValidRune r) then false
  else match String.index 0 (EncodeRune r) s with
       | Some _ => true
       | None => false
       end.

(** [trimLeftUnicode], [skip] counting the bytes left of the rune removed
    last. *)
Fixpoint trimLeftUnicode_from (cutset s : string) (skip : nat) : string :=
  match s with
  | EmptyString => EmptyString
  | String c s' =>
      match skip with
      | S k => trimLeftUnicode_from cutset s' k
      | O =>
          let '(r, n) :=
            if utf8.RuneSelf <=? byteval c then utf8.DecodeRuneInString s
            else (byteval c, 1%nat) in
          if ContainsRune cutset r
          then trimLeftUnicode_from cutset s' (n - 1)
          else s
      end
  end.

Definition trimLeftUnicode (s cutset : string) : string :=
  trimLeftUnicode_from cutset s 0.

(** [trimRightUnicode], as the length that is left of [s]. *)
Fixpoint trimRightUnicode_from (cutset s : string) (i skip : nat) : nat :=
  match i with
  | O => O
  | S i' =>
      match skip with
      | S k => trimRightUnicode_from cutset s i' k
      | O =>
          let '(r, n) :=
            if utf8.RuneSelf <=? strbyte s i'
            then utf8.DecodeLastRuneInString (substring 0 i s)
            else (strbyte s i', 1%nat) in
          if ContainsRune cutset r
          then trimRightUnicode_from cutset s i' (n - 1)
          else i
      end
  end.

Definition trimRightUnicode (s cutset : string) : string :=
  substring 0 (trimRightUnicode_from cutset s (String.length s) 0) s.

(** [Trim(s, cutset)]: [s] without the leading and trailing code points
    that [cutset] contains. *)
Definition Trim (s cutset : string) : string :=
  if bool_decide (s = "") || bool_decide (cutset = "") then s
  else if (String.length cutset =? 1)%nat && (strbyte cutset 0 <? utf8.RuneSelf)
  then trimLeftByte (trimRightByte s (strbyte cutset 0)) (strbyte cutset 0)
  else
    match makeASCIISet cutset with
    | Some set => trimLeftASCII (trimRightASCII s set) set
    | None => trimLeftUnicode (trimRightUnicode s cutset) cutset
    end.

End strings.

(** ** strconv *)

Module strconv.

Inductive NumError : Type := ErrSyntax | ErrRange.

#[global] Instance NumError_eq_dec : EqDecision NumError.
Proof. solve_decision. Defined.

(** The loop of the fast path: [ch -= '0'] on a byte, [ch > 9] a syntax
    error, [n = n*10 + int(ch)] otherwise. *)
Fixpoint digits (s : string) (n : Z) : option Z :=
  match s with
  | EmptyString => Some n
  | String c s' =>
      let ch := (byteval c - 48) mod 256 in
      if 9 <? ch then None else digits s' (n * 10 + ch)
  end.

Definition maxUint64 : Z := 2 ^ 64 - 1.

(** [ParseUint(s, 10, 0)] after its test for the empty string. *)
Fixpoint ParseUint_loop (s : string) (n : Z) : Z * option NumError :=
  match s with
  | EmptyString => (n, None)
  | String c s' =>
      let c := byteval c in
      if (48 <=? c) && (c <=? 57) then
        let d := c - 48 in
        if maxUint64 / 10 + 1 <=? n then (maxUint64, Some ErrRange) else
        let n := n * 10 in
        let n1 := (n + d) mod 2 ^ 64 in
        if n1 <? n then (maxUint64, Some ErrRange)
        else ParseUint_loop s' n1
      else (0, Some ErrSyntax)
  end.

Definition ParseUint (s : string) : Z * option NumError :=
  if (String.length s =? 0)%nat then (0, Some ErrSyntax)
  else ParseUint_loop s 0.

(** [ParseInt(s, 10, 0)] with 64-bit [int]. *)
Definition ParseInt (s : string) : Z * option NumError :=
  if (String.length s =? 0)%nat then (0, Some ErrSyntax) else
  let neg := strbyte s 0 =? 45 in
  let s := if (strbyte s 0 =? 43) || neg then strdrop 1 s else s in
  let '(un, err) := ParseUint s in
  if bool_decide (err = Some ErrSyntax) then (0, err) else
  let cutoff := 2 ^ 63 in
  if negb neg && (cutoff <=? un) then (cutoff - 1, Some ErrRange)
  else if neg && (cutoff <? un) then (- cutoff, Some ErrRange)
  else ((if neg then - un else un), None).

(** [Atoi] with 64-bit [int]: the fast path for 1 to 18 characters, the
    general [ParseInt] otherwise. *)
Definition Atoi (s : string) : Z * option NumError :=
  let sLen := String.length s in
  if (0 <? sLen)%nat && (sLen <? 19)%nat then
    let s0 := s in
    let signed := (strbyte s 0 =? 45) || (strbyte s 0 =? 43) in
    let s := if signed then strdrop 1 s else s in
    if signed && (String.length s <? 1)%nat then (0, Some ErrSyntax) else
    match digits s 0 with
    | None => (0, Some ErrSyntax)
    | Some n => ((if strbyte s0 0 =? 45 then - n else n), None)
    end
  else ParseInt s.

End strconv.

(** ** time *)

Module time.

(** A [Time] in the UTC location, as its Unix time in seconds. *)
Record Time : Type := unixTime { unix : Z }.

#[global] Instance Time_eq_dec : EqDecision Time.
Proof. solve_decision. Defined.

Definition secondsPerDay : Z := 86400.
Definition daysPer400Years : Z := 365 * 400 + 97.
Definition daysPer100Years : Z := 365 * 100 + 24.
Definition daysPer4Years : Z := 365 * 4 + 1.

Definition absoluteZeroYear : Z := -292277022399.
Definition internalYear : Z := 1.
Definition absoluteToInternal : Z := -9223371966579724800.
Definition internalToAbsolute : Z := - absoluteToInternal.
Definition unixToInternal : Z :=
  (1969 * 365 + 1969 / 4 - 1969 / 100 + 1969 / 400) * secondsPerDay.
Definition internalToUnix : Z := - unixToInternal.

Definition March : Z := 3.
Definition February : Z := 2.

(** [daysBefore[m]]: the days of a non-leap year before month [m+1]. *)
Definition daysBefore (m : Z) : Z :=
  nth (Z.to_nat m) [0; 31; 59; 90; 120; 151; 181; 212; 243; 273; 304; 334; 365] 0.

(** [norm]: [nhi, nlo] with [hi*base + lo == nhi*base + nlo] and
    [0 <= nlo < base]; Go's integer division truncates. *)
Definition norm (hi lo base : Z) : Z * Z :=
  let '(hi, lo) :=
    if lo <? 0 then
      let n := Z.quot (- lo - 1) base + 1 in (hi - n, lo + n * base)
    else (hi, lo) in
  if base <=? lo then
    let n := Z.quot lo base in (hi + n, lo - n * base)
  else (hi, lo).

Definition isLeap (year : Z) : bool :=
  (Z.rem year 4 =? 0) && (negb (Z.rem year 100 =? 0) || (Z.rem year 400 =? 0)).

Definition daysSinceEpoch (year : Z) : Z :=
  let y := year - absoluteZeroYear in
  let n := y / 400 in
  let y := y - 400 * n in
  let d := daysPer400Years * n in
  let n := y / 100 in
  let y := y - 100 * n in
  let d := d + daysPer100Years * n in
  let n := y / 4 in
  let y := y - 4 * n in
  let d := d + daysPer4Years * n in
  let n := y in
  d + 365 * n.

(** [Date(year, month, day, hour, min, sec, nsec, UTC)].  The source works in
    [uint64] and [int64]; here the integers are unbounded, which agrees with
    it as long as the instant fits 64 bits. *)
Definition Date (year month day hour min sec nsec : Z) : Time :=
  let m := month - 1 in
  let '(year, m) := norm year m 12 in
  let month := m + 1 in
  let '(sec, nsec) := norm sec nsec 1000000000 in
  let '(min, sec) := norm min sec 60 in
  let '(hour, min) := norm hour min 60 in
  let '(day, hour) := norm day hour 24 in
  let d := daysSinceEpoch year in
  let d := d + daysBefore (month - 1) in
  let d := if isLeap year && (March <=? month) then d + 1 else d in
  let d := d + (day - 1) in
  let abs := d * secondsPerDay in
  let abs := abs + (hour * 3600 + min * 60 + sec) in
  unixTime (abs + (absoluteToInternal + internalToUnix)).

(** [t.abs()] in UTC. *)
Definition abs (t : Time) : Z := unix t + (unixToInternal + internalToAbsolute).

(** [absDate(abs, true)]: year, month and day of an absolute time. *)
Definition absDate (abs : Z) : Z * Z * Z :=
  let d := abs / secondsPerDay in
  let n := d / daysPer400Years in
  let y := 400 * n in
  let d := d - daysPer400Years * n in
  let n := d / daysPer100Years in
  let n := n - Z.shiftr n 2 in
  let y := y + 100 * n in
  let d := d - daysPer100Years * n in
  let n := d / daysPer4Years in
  let y := y + 4 * n in
  let d := d - daysPer4Years * n in
  let n := d / 365 in
  let n := n - Z.shiftr n 2 in
  let y := y + n in
  let d := d - 365 * n in
  let year := y + absoluteZeroYear in
  let day := d in
  if isLeap year && (day =? 31 + 29 - 1) then (year, February, 29) else
  let day := if isLeap year && (31 + 29 - 1 <? day) then day - 1 else day in
  let month := day / 31 in
  let end_ := daysBefore (month + 1) in
  let '(month, begin) :=
    if end_ <=? day then (month + 1, end_) else (month, daysBefore month) in
  let month := month + 1 in
  (year, month, day - begin + 1).

(** [t.Date()]: the year, month and day in which [t] occurs. *)
Definition Time_Date (t : Time) : Z * Z * Z := absDate (abs t).

End time.

(** ** Errors *)

(** An [error] value: the package variable [errShortRead], a value made on
    the spot by [errors.New], or one of the errors of package [io]. *)
Inductive error : Type :=
| errShortRead
| errors_New (msg : string)
| io_errWhence
| io_errOffset
| io_EOF.

#[global] Instance error_eq_dec : EqDecision error.
Proof. solve_decision. Defined.


(** ** The record *)

Definition ASCIISub : Z := 26.
Definition sauceDate : string := "19700101".

Definition LetterSpacingLegacy : Z := 0.
Definition LetterSpacingInvalid : Z := 3.

Definition AspectRatioStretch : Z := 1.
Definition AspectRatioSquare : Z := 2.
Definition AspectRatioInvalid : Z := 3.

(** [ID] is the SAUCE header identifier, [Version] the SAUCE version. *)
Definition ID : list byte := ["S"; "A"; "U"; "C"; "E"]%byte.
Definition Version : list byte := [x00; x00].

Module TFlags.

Record t : Type := mk {
  NonBlink : bool;
  LetterSpacing : Z;
  AspectRatio : Z
}.

End TFlags.

Module SAUCE.

Record t : Type := mk {
  ID : list byte;
  Version : list byte;
  Title : string;
  Author : string;
  Group : string;
  Date : time.Time;
  FileSize : Z;
  DataType : Z;
  FileType : Z;
  TInfo : list Z;
  Comments : Z;
  TFlags : TFlags.t;
  TInfos : list byte
}.

End SAUCE.

(** The zero [time.Time] is January 1, year 1, 00:00:00 UTC. *)
Definition zeroTime : time.Time := time.Date 1 1 1 0 0 0 0.

(** [New] creates an empty SAUCE record. *)
Definition New : SAUCE.t :=
  {| SAUCE.ID := ID;
     SAUCE.Version := Version;
     SAUCE.Title := "";
     SAUCE.Author := "";
     SAUCE.Group := "";
     SAUCE.Date := zeroTime;
     SAUCE.FileSize := 0;
     SAUCE.DataType := 0;
     SAUCE.FileType := 0;
     SAUCE.TInfo := [0; 0; 0; 0];
     SAUCE.Comments := 0;
     SAUCE.TFlags := TFlags.mk false 0 0;
     SAUCE.TInfos := [] |}.

(** [parseDate]: the three fixed slices of [s], each through [strconv.Atoi]
    with its error dropped, then [time.Date]. *)
Definition parseDate (s : string) : go time.Time :=
  ys <- strslice s 0 4 ;;
  let y := fst (strconv.Atoi ys) in
  ms <- strslice s 4 6 ;;
  let m := fst (strconv.Atoi ms) in
  ds <- strslice s 6 8 ;;
  let d := fst (strconv.Atoi ds) in
  ret (time.Date y m d 0 0 0 0).

(** [ParseBytes] reads the SAUCE header from a slice of bytes.  The fields of
    the record made by [New] are assigned in the order of the source; [ID] and
    [Version] are never assigned and keep the values [New] gave them. *)
Definition ParseBytes (b : list byte) : go (option SAUCE.t * option error) :=
  if len b <? 128 then ret (None, Some (errors_New "Short read")) else
  let o := len b - 128 in
  sig <- slice b (o + 0) (o + 5) ;;
  if negb (bytes.Equal sig ID)
  then ret (None, Some (errors_New "No SAUCE record")) else
  let r := New in
  title <- slice b (o + 7) (o + 41) ;;
  let Title := strings.TrimSpace (string_of_list_byte title) in
  author <- slice b (o + 41) (o + 61) ;;
  let Author := strings.TrimSpace (string_of_list_byte author) in
  group <- slice b (o + 61) (o + 81) ;;
  let Group := strings.TrimSpace (string_of_list_byte group) in
  date <- slice b (o + 82) (o + 90) ;;
  Date <- parseDate (string_of_list_byte date) ;;
  size <- slice b (o + 91) (o + 95) ;;
  FileSize <- binary.Uint32 size ;;
  dt <- index b (o + 94) ;;
  let DataType := uint8 dt in
  ft <- index b (o + 95) ;;
  let FileType := uint8 ft in
  t0 <- slice b (o + 96) (o + 98) ;;
  TInfo0 <- binary.Uint16 t0 ;;
  t1 <- slice b (o + 98) (o + 100) ;;
  TInfo1 <- binary.Uint16 t1 ;;
  t2 <- slice b (o + 100) (o + 102) ;;
  TInfo2 <- binary.Uint16 t2 ;;
  t3 <- slice b (o + 102) (o + 104) ;;
  TInfo3 <- binary.Uint16 t3 ;;
  cm <- index b (o + 104) ;;
  let Comments := uint8 cm in
  TInfos <- slice_from b (106 + o) ;;
  tf <- index b (o + 105) ;;
  let tflags := uint8 tf in
  let NonBlink := Z.land tflags 1 =? 1 in
  let LetterSpacing := Z.land (Z.shiftr tflags 1) 3 in
  let AspectRatio := Z.land (Z.shiftr tflags 3) 3 in
  ret (Some {| SAUCE.ID := SAUCE.ID r;
               SAUCE.Version := SAUCE.Version r;
               SAUCE.Title := Title;
               SAUCE.Author := Author;
               SAUCE.Group := Group;
               SAUCE.Date := Date;
               SAUCE.FileSize := FileSize;
               SAUCE.DataType := DataType;
               SAUCE.FileType := FileType;
               SAUCE.TInfo := [TInfo0; TInfo1; TInfo2; TInfo3];
               SAUCE.Comments := Comments;
               SAUCE.TFlags := TFlags.mk NonBlink LetterSpacing AspectRatio;
               SAUCE.TInfos := TInfos |}, None).

(** ** io.SectionReader over a byte sequence *)

Module io.

(** A section reader: the bytes of the underlying [ReaderAt], the section
    [base .. limit), the read offset, and the trace of the [ReadAt] calls made
    on the underlying reader (offset and count asked for). *)
Record SectionReader : Type := mk {
  r : list byte;
  base : Z;
  off : Z;
  limit : Z;
  trace : list (Z * Z)
}.

Definition maxint64 : Z := 2 ^ 63 - 1.

Definition NewSectionReader (r : list byte) (off n : Z) : SectionReader :=
  let remaining := if off <=? maxint64 - n then n + off else maxint64 in
  mk r off off remaining [].

(** [s.Size()]. *)
Definition Size (s : SectionReader) : Z := limit s - base s.

Definition SeekStart : Z := 0.
Definition SeekCurrent : Z := 1.
Definition SeekEnd : Z := 2.

Definition Seek (s : SectionReader) (offset whence : Z)
  : SectionReader * (Z * option error) :=
  let target :=
    if whence =? SeekStart then Some (offset + base s)
    else if whence =? SeekCurrent then Some (offset + off s)
    else if whence =? SeekEnd then Some (offset + limit s)
    else None in
  match target with
  | None => (s, (0, Some io_errWhence))
  | Some offset =>
      if offset <? base s then (s, (0, Some io_errOffset))
      else (mk (r s) (base s) offset (limit s) (trace s), (offset - base s, None))
  end.

(** [ReadAt] of a reader over a byte sequence, as [bytes.Reader] has it: the
    bytes copied and the error. *)
Definition ReadAt (data : list byte) (n : Z) (off : Z) : list byte * option error :=
  if off <? 0 then ([], Some (errors_New "bytes.Reader.ReadAt: negative offset"))
  else if len data <=? off then ([], Some io_EOF)
  else
    let got := take (Z.to_nat n) (drop (Z.to_nat off) data) in
    (got, if len got <? n then Some io_EOF else None).

(** [s.Read(p)]: the new contents of [p], the count and the error. *)
Definition Read (s : SectionReader) (p : list byte)
  : SectionReader * (list byte * Z * option error) :=
  if limit s <=? off s then (s, (p, 0, Some io_EOF)) else
  let max := limit s - off s in
  let n := if max <? len p then max else len p in
  let '(got, err) := ReadAt (r s) n (off s) in
  (mk (r s) (base s) (off s + len got) (limit s) (trace s ++ [(off s, n)]),
   ((got ++ drop (length got) p)%list, len got, err)).

End io.

(** [Parse]: the SAUCE record of a section reader. *)
Definition Parse (s : io.SectionReader)
  : io.SectionReader * go (option SAUCE.t * option error) :=
  let '(s, (n, err)) := io.Seek s (-128) 2 in
  if bool_decide (err <> None) then (s, ret (None, err)) else
  if n <? 128 then (s, ret (None, Some errShortRead)) else
  let b := repeat x00 128 in
  let '(s, (b, i, err)) := io.Read s b in
  if bool_decide (err <> None) then (s, ret (None, err)) else
  if negb (i =? 128) then (s, ret (None, Some errShortRead)) else
  (s, ParseBytes b).

(** [ParseReader] after [ioutil.ReadAll] has produced [b] without error. *)
Definition ParseReader_read (b : list byte) : go (option SAUCE.t * option error) :=
  if len b <? 128 then ret (None, Some errShortRead) else
  ParseBytes b.

(** ** The fixture of the decoding test *)

Definition byte_of_Z (v : Z) : byte :=
  match Byte.of_N (Z.to_N (v mod 256)) with
  | Some x => x
  | None => x00
  end.

(** [binary.LittleEndian.PutUint16] and [PutUint32], as the bytes written. *)
Definition PutUint16 (v : Z) : list byte :=
  [byte_of_Z v; byte_of_Z (Z.shiftr v 8)].

Definition PutUint32 (v : Z) : list byte :=
  [byte_of_Z v; byte_of_Z (Z.shiftr v 8);
   byte_of_Z (Z.shiftr v 16); byte_of_Z (Z.shiftr v 24)].

(** [copy(w[off:], v)]: window [w] with [v] written from offset [off] on. *)
Definition put (off : nat) (v : list byte) (w : list byte) : list byte :=
  (take off w ++ v ++ drop (off + length v) w)%list.

(** A text field padded with spaces to its width. *)
Definition padded (s : string) (width : nat) : list byte :=
  (list_byte_of_string s ++ repeat " "%byte (width - String.length s))%list.

(** The fields of the fixture, written into a window of 128 zero bytes in the
    order of the layout: the data type code, written after the file size,
    lands on the last byte of the size field. *)
Definition fixture : list byte :=
  put 105 [byte_of_Z 5]
  (put 104 [byte_of_Z 0]
  (put 102 (PutUint16 0)
  (put 100 (PutUint16 0)
  (put 98 (PutUint16 25)
  (put 96 (PutUint16 80)
  (put 95 [byte_of_Z 0]
  (put 94 [byte_of_Z 1]
  (put 91 (PutUint32 1024)
  (put 82 (list_byte_of_string "20230615")
  (put 61 (padded "Group" 20)
  (put 41 (padded "Author" 20)
  (put 7 (padded "Test Title" 34)
  (put 0 ID (repeat x00 128)))))))))))))).

(** ** Classification *)

(** A Go map with [uint8] keys: [None] is the nil map. Reading a key that is
    absent, or reading a nil map, gives the zero value of the element type. *)
Definition gomap (V : Type) : Type := option (gmap Z V).

Definition mapindex {V : Type} (zero : V) (m : gomap V) (k : Z) : V :=
  match m with
  | Some g => default zero (g !! k)
  | None => zero
  end.

Section Classification.

(** Modelled from the spec: the three classification tables ([DataType], a
    flat map from data type code to name; [FileType] and [MimeType], sparse
    maps from data type code to a map from file type code to string) and the
    three distinguished data type codes are declared in a file of the package
    that is not at hand; they are parameters here. *)
Variable DataType : gomap string.
Variable FileType : gomap (gomap string).
Variable MimeType : gomap (gomap string).
Variables DataTypeBinaryText DataTypeXBIN DataTypeExecutable : Z.


(** [FileTypeString] returns the FileType as string. *)
Definition FileTypeString (r : SAUCE.t) : string :=
  match mapindex None FileType (SAUCE.DataType r) with
  | None =>
      if SAUCE.DataType r =? DataTypeBinaryText then "BinaryText"
      else if SAUCE.DataType r =? DataTypeXBIN then "XBin"
      else if SAUCE.DataType r =? DataTypeExecutable then "Executable"
      else ""
  | Some _ =>
      mapindex "" (mapindex None FileType (SAUCE.DataType r)) (SAUCE.FileType r)
  end.

(** [MimeType] returns the mime type as string. *)
Definition SAUCE_MimeType (r : SAUCE.t) : string :=
  let t :=
    match mapindex None MimeType (SAUCE.DataType r) with
    | None =>
        if SAUCE.DataType r =? DataTypeBinaryText then "text/x-binary"
        else if SAUCE.DataType r =? DataTypeXBIN then "text/x-xbin"
        else ""
    | Some _ =>
        mapindex "" (mapindex None MimeType (SAUCE.DataType r)) (SAUCE.FileType r)
    end in
  if bool_decide (t = "") then "application/octet-stream" else t.

End Classification.

(** Sample tables, as the SAUCE standard numbers the data types: 1 is
    character data, 5 binary text, 6 XBin, 8 executable. *)
Definition sampleFileType : gomap (gomap string) :=
  Some (<[1 := Some (<[0 := "ASCII"]> (<[1 := "ANSi"]> ∅))]> ∅).

Definition sampleMimeType : gomap (gomap string) :=
  Some (<[1 := Some (<[0 := "text/plain"]> (<[1 := "text/x-ansi"]> ∅))]> ∅).

Definition sampleRecord (dataType fileType : Z) : SAUCE.t :=
  {| SAUCE.ID := SAUCE.ID New;
     SAUCE.Version := SAUCE.Version New;
     SAUCE.Title := "";
     SAUCE.Author := "";
     SAUCE.Group := "";
     SAUCE.Date := zeroTime;
     SAUCE.FileSize := 0;
     SAUCE.DataType := dataType;
     SAUCE.FileType := fileType;
     SAUCE.TInfo := [0; 0; 0; 0];
     SAUCE.Comments := 0;
     SAUCE.TFlags := TFlags.mk false 0 0;
     SAUCE.TInfos := [] |}.

(** ** The other entry points and methods *)


(** The cutset of [Font]: NUL and space. *)
Definition fontCutset : string := String (ascii_of_nat 0) " ".

(** [Font] returns the font name. *)
Definition Font (r : SAUCE.t) : string :=
  strings.Trim (string_of_list_byte (SAUCE.TInfos r)) fontCutset.




Section Report.

Variable DataType : gomap string.
Variable FileType : gomap (gomap string).
Variables DataTypeBinaryText DataTypeXBIN DataTypeExecutable : Z.


End Report.

(** ** The trailing window, field by field *)

(** [o], the start of the trailing 128-byte window. *)
Definition offset (b : list byte) : Z := len b - 128.

(** The bytes of the window from [lo] up to [hi], and the byte at [i]. *)
Definition field (b : list byte) (lo hi : Z) : list byte :=
  take (Z.to_nat (hi - lo)) (drop (Z.to_nat (offset b + lo)) b).

Definition field_byte (b : list byte) (i : Z) : byte :=
  default x00 (b !! Z.to_nat (offset b + i)).

(** The buffer with the byte at offset [i] of its window replaced by [x]. *)
Definition with_byte (b : list byte) (i : Z) (x : byte) : list byte :=
  <[Z.to_nat (offset b + i) := x]> b.

Definition le16 (l : list byte) : Z :=
  Z.lor (uint8 (nth 0 l x00)) (Z.shiftl (uint8 (nth 1 l x00)) 8).

Definition le32 (l : list byte) : Z :=
  Z.lor (Z.lor (Z.lor (uint8 (nth 0 l x00)) (Z.shiftl (uint8 (nth 1 l x00)) 8))
               (Z.shiftl (uint8 (nth 2 l x00)) 16))
        (Z.shiftl (uint8 (nth 3 l x00)) 24).

(** What [parseDate] computes when its three slices are in bounds. *)
Definition dateOf (s : string) : time.Time :=
  time.Date (fst (strconv.Atoi (substring 0 4 s)))
            (fst (strconv.Atoi (substring 4 2 s)))
            (fst (strconv.Atoi (substring 6 2 s))) 0 0 0 0.

Definition flagsOf (f : Z) : TFlags.t :=
  TFlags.mk (Z.land f 1 =? 1) (Z.land (Z.shiftr f 1) 3) (Z.land (Z.shiftr f 3) 3).

(** The record [ParseBytes] builds once length and signature are accepted
    (lemma [ParseBytes_unfold] below derives it from the code). *)
Definition decoded (b : list byte) : SAUCE.t :=
  {| SAUCE.ID := ID;
     SAUCE.Version := Version;
     SAUCE.Title := strings.TrimSpace (string_of_list_byte (field b 7 41));
     SAUCE.Author := strings.TrimSpace (string_of_list_byte (field b 41 61));
     SAUCE.Group := strings.TrimSpace (string_of_list_byte (field b 61 81));
     SAUCE.Date := dateOf (string_of_list_byte (field b 82 90));
     SAUCE.FileSize := le32 (field b 91 95);
     SAUCE.DataType := uint8 (field_byte b 94);
     SAUCE.FileType := uint8 (field_byte b 95);
     SAUCE.TInfo := [le16 (field b 96 98); le16 (field b 98 100);
                     le16 (field b 100 102); le16 (field b 102 104)];
     SAUCE.Comments := uint8 (field_byte b 104);
     SAUCE.TFlags := flagsOf (uint8 (field_byte b 105));
     SAUCE.TInfos := field b 106 128 |}.

(** ** Decimal numerals, as the description of the date decoder has them *)

Definition is_digit (c : ascii) : bool :=
  (48 <=? byteval c) && (byteval c <=? 57).

(** The value of a string of decimal digits read after the value [acc]. *)
Fixpoint digits_value (s : string) (acc : Z) : Z :=
  match s with
  | EmptyString => acc
  | String c s' => digits_value s' (acc * 10 + (byteval c - 48))
  end.

Fixpoint all_digits (s : string) : bool :=
  match s with
  | EmptyString => true
  | String c s' => is_digit c && all_digits s'
  end.

(** A base-10 integer: an optional sign, then one or more decimal digits. *)
Definition decimal (s : string) : option Z :=
  match s with
  | EmptyString => None
  | String c s' =>
      if (byteval c =? 45) || (byteval c =? 43) then
        match s' with
        | EmptyString => None
        | _ => if all_digits s'
               then Some (if byteval c =? 45 then - digits_value s' 0
                          else digits_value s' 0)
               else None
        end
      else if all_digits s then Some (digits_value s 0) else None
  end.

(** The value of a substring of the date: its integer, or [0] when it does not
    parse. *)
Definition decimal_or_zero (s : string) : Z := default 0 (decimal s).


(** The same fields written with the file size last, so that the size field
    holds 1024 and the data type byte is the zero the size left there. *)
Definition fixture_size_last : list byte :=
  put 91 (PutUint32 1024) fixture.

(** Two buffers agree at offset [k] of their windows. *)
Definition agree_at (b b' : list byte) (k : Z) : Prop :=
  b !! Z.to_nat (offset b + k) = b' !! Z.to_nat (offset b' + k).

(** ** Padded text *)

(** Every byte of [s] is in [member]. *)
Fixpoint all_in (member : Z -> bool) (s : string) : bool :=
  match s with
  | EmptyString => true
  | String c s' => member (byteval c) && all_in member s'
  end.

(** A text that is empty or whose first and last bytes are not in [member]. *)
Definition clean_ends (member : Z -> bool) (t : string) : Prop :=
  t = "" \/
  (member (strbyte t 0) = false /\
   member (strbyte t (String.length t - 1)) = false).

(** The bytes [Font] removes: NUL and space. *)
Definition isPad (c : Z) : bool := (c =? 0) || (c =? 32).

(** The bytes at which the ASCII loops of [TrimSpace] do not stop for good:
    the ASCII white space, and the bytes that are not ASCII. *)
Definition notText (c : Z) : bool :=
  strings.asciiSpace c || (utf8.RuneSelf <=? c).

(** The days of month [m] of year [y]. *)
Definition daysIn (y m : Z) : Z :=
  if m =? 2 then (if time.isLeap y then 29 else 28)
  else if (m =? 4) || (m =? 6) || (m =? 9) || (m =? 11) then 30
  else 31.

(** ** The two halves of [absDate] *)

(** The first half: the year and the day of the year of a count of days. *)
Definition absYearDay (d : Z) : Z * Z :=
  let n := d / time.daysPer400Years in
  let y := 400 * n in
  let d := d - time.daysPer400Years * n in
  let n := d / time.daysPer100Years in
  let n := n - Z.shiftr n 2 in
  let y := y + 100 * n in
  let d := d - time.daysPer100Years * n in
  let n := d / time.daysPer4Years in
  let y := y + 4 * n in
  let d := d - time.daysPer4Years * n in
  let n := d / 365 in
  let n := n - Z.shiftr n 2 in
  let y := y + n in
  let d := d - 365 * n in
  (y + time.absoluteZeroYear, d).

(** The second half: the month and the day of a day of the year. *)
Definition monthDayOf (leap : bool) (yday : Z) : Z * Z :=
  let day := yday in
  if leap && (day =? 31 + 29 - 1) then (time.February, 29) else
  let day := if leap && (31 + 29 - 1 <? day) then day - 1 else day in
  let month := day / 31 in
  let end_ := time.daysBefore (month + 1) in
  let '(month, begin) :=
    if end_ <=? day then (month + 1, end_) else (month, time.daysBefore month) in
  let month := month + 1 in
  (month, day - begin + 1).

(** The day of the year of day [d] of month [m], counted from 0. *)
Definition yearDay (leap : bool) (m d : Z) : Z :=
  time.daysBefore (m - 1) + (if leap && (time.March <=? m) then 1 else 0)
  + (d - 1).

Definition monthLength (leap : bool) (m : Z) : Z :=
  if m =? 2 then (if leap then 29 else 28)
  else if (m =? 4) || (m =? 6) || (m =? 9) || (m =? 11) then 30
  else 31.

Definition Zrange (lo : Z) (n : nat) : list Z :=
  List.map (fun i => lo + Z.of_nat i) (seq 0 n).

(** Every day of every month of a common and of a leap year, through
    [yearDay] and back through [monthDayOf]. *)
Definition monthDay_roundtrip_ok (leap : bool) : bool :=
  forallb (fun m =>
    forallb (fun d =>
      let '(m', d') := monthDayOf leap (yearDay leap m d) in
      (m' =? m) && (d' =? d) && (0 <=? yearDay leap m d) &&
      (yearDay leap m d <? 365 + Z.b2z leap))
      (Zrange 1 (Z.to_nat (monthLength leap m))))
    (Zrange 1 12).

(** ** Sections of a reader *)

(** A section that lies inside the bytes of the underlying reader. *)
Definition section_ok (s : io.SectionReader) : Prop :=
  0 <= io.base s /\ io.base s <= io.limit s /\ io.limit s <= len (io.r s).

(** The bytes of the section. *)
Definition section_bytes (s : io.SectionReader) : list byte :=
  take (Z.to_nat (io.Size s)) (drop (Z.to_nat (io.base s)) (io.r s)).

(** * Properties *)

(** ** The models of the library functions on sample inputs *)

Example TrimSpace_padded :
  strings.TrimSpace "  Test Title      " = "Test Title".
Proof. reflexivity. Qed.

Example TrimSpace_all_spaces : strings.TrimSpace "      " = "".
Proof. reflexivity. Qed.

Example TrimSpace_nbsp :
  strings.TrimSpace (String (ascii_of_nat 194) (String (ascii_of_nat 160) "ab "))
  = "ab".
Proof. vm_compute. reflexivity. Qed.

Example TrimSpace_trailing_nbsp :
  strings.TrimSpace ("ab " ++ String (ascii_of_nat 194) (String (ascii_of_nat 160) " "))
  = "ab".
Proof. vm_compute. reflexivity. Qed.

Example TrimSpace_invalid_utf8 :
  strings.TrimSpace (" " ++ String (ascii_of_nat 160) " ")
  = String (ascii_of_nat 160) "".
Proof. vm_compute. reflexivity. Qed.

Example Atoi_2023 : strconv.Atoi "2023" = (2023, None).
Proof. reflexivity. Qed.

Example Atoi_1A : strconv.Atoi "1A" = (0, Some strconv.ErrSyntax).
Proof. reflexivity. Qed.

Example Atoi_signed : strconv.Atoi "-7" = (-7, None) /\ strconv.Atoi "+7" = (7, None).
Proof. split; reflexivity. Qed.

Example Atoi_long :
  strconv.Atoi "99999999999999999999" = (2 ^ 63 - 1, Some strconv.ErrRange).
Proof. vm_compute. reflexivity. Qed.

Example Date_20230615 :
  time.Date 2023 6 15 0 0 0 0 = time.unixTime 1686787200 /\
  time.Time_Date (time.Date 2023 6 15 0 0 0 0) = (2023, 6, 15).
Proof. split; vm_compute; reflexivity. Qed.

Example Date_month_zero :
  time.Date 2023 0 1 0 0 0 0 = time.Date 2022 12 1 0 0 0 0 /\
  time.Time_Date (time.Date 2023 0 1 0 0 0 0) = (2022, 12, 1).
Proof. split; vm_compute; reflexivity. Qed.

Example Date_day_zero :
  time.Time_Date (time.Date 2024 3 0 0 0 0 0) = (2024, 2, 29) /\
  time.Time_Date (time.Date 0 0 0 0 0 0 0) = (-1, 11, 30).
Proof. split; vm_compute; reflexivity. Qed.

(** ** Slices and indices inside the window *)

Lemma length_field (b : list byte) (lo hi : Z) :
  128 <= len b -> 0 <= lo -> lo <= hi -> hi <= 128 ->
  length (field b lo hi) = Z.to_nat (hi - lo).
Proof.
  intros Hb Hlo Hhi H128. unfold field, offset, len in *.
  rewrite length_take, length_drop. lia.
Qed.

Lemma slice_window (b : list byte) (lo hi : Z) :
  128 <= len b -> 0 <= lo -> lo <= hi -> hi <= 128 ->
  slice b (offset b + lo) (offset b + hi) = ret (field b lo hi).
Proof.
  intros Hb Hlo Hhi H128. unfold slice, field, offset in *.
  replace (len b - 128 + hi - (len b - 128 + lo)) with (hi - lo) by lia.
  destruct (0 <=? len b - 128 + lo) eqn:E1; [|lia].
  destruct (len b - 128 + lo <=? len b - 128 + hi) eqn:E2; [|lia].
  destruct (len b - 128 + hi <=? len b) eqn:E3; [|lia].
  reflexivity.
Qed.

Lemma slice_from_window (b : list byte) :
  128 <= len b ->
  slice_from b (offset b + 106) = ret (field b 106 128).
Proof.
  intros Hb. unfold slice_from.
  rewrite <- (slice_window b 106 128) by lia.
  f_equal. unfold offset. lia.
Qed.

Lemma index_window (b : list byte) (i : Z) :
  128 <= len b -> 0 <= i -> i < 128 ->
  index b (offset b + i) = ret (field_byte b i).
Proof.
  intros Hb Hi H128. unfold index, field_byte, offset, len in *.
  destruct (0 <=? Z.of_nat (length b) - 128 + i) eqn:E; [|lia].
  destruct (lookup_lt_is_Some_2 b (Z.to_nat (Z.of_nat (length b) - 128 + i)))
    as [x Hx]; [lia|].
  rewrite Hx. reflexivity.
Qed.

Lemma index_nth (l : list byte) (i : Z) :
  0 <= i -> i < len l -> index l i = ret (nth (Z.to_nat i) l x00).
Proof.
  intros Hi Hl. unfold index, len in *.
  destruct (0 <=? i) eqn:E; [|lia].
  destruct (lookup_lt_is_Some_2 l (Z.to_nat i)) as [x Hx]; [lia|].
  rewrite Hx. f_equal. symmetry. apply nth_lookup_Some with (d := x00) in Hx.
  exact Hx.
Qed.

Lemma Uint16_le16 (l : list byte) :
  length l = 2%nat -> binary.Uint16 l = ret (le16 l).
Proof.
  intros Hl. unfold binary.Uint16, le16.
  rewrite !index_nth by (unfold len; lia). reflexivity.
Qed.

Lemma Uint32_le32 (l : list byte) :
  length l = 4%nat -> binary.Uint32 l = ret (le32 l).
Proof.
  intros Hl. unfold binary.Uint32, le32.
  rewrite !index_nth by (unfold len; lia). reflexivity.
Qed.

Lemma length_string_of_list_byte (l : list byte) :
  String.length (string_of_list_byte l) = length l.
Proof.
  unfold string_of_list_byte. induction l as [|x l IH]; simpl; [reflexivity|].
  now rewrite IH.
Qed.

(** ** The date decoder on eight characters *)

Lemma parseDate_dateOf (s : string) :
  String.length s = 8%nat -> parseDate s = ret (dateOf s).
Proof.
  intros Hs. unfold parseDate, strslice. rewrite Hs. reflexivity.
Qed.

(** With fewer than eight characters the last slice is out of bounds. *)
Lemma parseDate_short (s : string) :
  (String.length s < 8)%nat -> exists msg, parseDate s = panic msg.
Proof.
  intros Hs. unfold parseDate, strslice.
  destruct (0 <=? 0) eqn:E0; [|lia]. simpl andb.
  destruct (4 <=? Z.of_nat (String.length s)) eqn:E4; simpl; [|eauto].
  destruct (6 <=? Z.of_nat (String.length s)) eqn:E6; simpl; [|eauto].
  destruct (8 <=? Z.of_nat (String.length s)) eqn:E8; simpl; [lia|eauto].
Qed.

(** ** [ParseBytes], unfolded *)

Lemma ParseBytes_short (b : list byte) :
  len b < 128 -> ParseBytes b = ret (None, Some (errors_New "Short read")).
Proof.
  intros Hb. unfold ParseBytes. destruct (len b <? 128) eqn:E; [reflexivity|lia].
Qed.

Lemma ParseBytes_unfold (b : list byte) :
  128 <= len b ->
  ParseBytes b =
    if bytes.Equal (field b 0 5) ID
    then ret (Some (decoded b), None)
    else ret (None, Some (errors_New "No SAUCE record")).
Proof.
  intros Hb. unfold ParseBytes. destruct (len b <? 128) eqn:E; [lia|].
  cbv zeta. change (len b - 128) with (offset b).
  rewrite (Z.add_comm 106 (offset b)).
  rewrite !slice_window, slice_from_window, !index_window by lia.
  cbn [bind]. destruct (bytes.Equal (field b 0 5) ID); cbn [negb]; [|reflexivity].
  rewrite parseDate_dateOf
    by (rewrite length_string_of_list_byte, length_field by lia; reflexivity).
  cbn [bind].
  rewrite Uint32_le32 by (rewrite length_field by lia; reflexivity).
  cbn [bind].
  rewrite !Uint16_le16 by (rewrite length_field by lia; reflexivity).
  reflexivity.
Qed.

(** ** What the decoder depends on *)

Lemma field_ext (b b' : list byte) (lo hi : Z) :
  128 <= len b -> 128 <= len b' -> 0 <= lo ->
  (forall k, lo <= k -> k < hi -> agree_at b b' k) ->
  field b lo hi = field b' lo hi.
Proof.
  intros Hb Hb' Hlo H. unfold field. apply list_eq. intros i.
  rewrite !lookup_take, !lookup_drop.
  destruct (decide (i < Z.to_nat (hi - lo))%nat) as [Hi|Hi]; [|reflexivity].
  specialize (H (lo + Z.of_nat i)). unfold agree_at, offset in *.
  replace (Z.to_nat (len b - 128 + lo) + i)%nat
    with (Z.to_nat (len b - 128 + (lo + Z.of_nat i))) by lia.
  replace (Z.to_nat (len b' - 128 + lo) + i)%nat
    with (Z.to_nat (len b' - 128 + (lo + Z.of_nat i))) by lia.
  apply H; lia.
Qed.

Lemma field_byte_ext (b b' : list byte) (k : Z) :
  agree_at b b' k -> field_byte b k = field_byte b' k.
Proof. unfold agree_at, field_byte. intros ->. reflexivity. Qed.

(** The decoder looks at the window only, and in it neither at offsets 5 and
    6 (the version) nor at offsets 81 and 90. *)
Lemma ParseBytes_ext (b b' : list byte) :
  128 <= len b -> 128 <= len b' ->
  (forall k, 0 <= k -> k < 128 -> k <> 5 -> k <> 6 -> k <> 81 -> k <> 90 ->
             agree_at b b' k) ->
  ParseBytes b = ParseBytes b'.
Proof.
  intros Hb Hb' H. rewrite !ParseBytes_unfold by assumption.
  assert (F : forall lo hi, 0 <= lo -> hi <= 128 ->
            (forall k, lo <= k -> k < hi -> k <> 5 /\ k <> 6 /\ k <> 81 /\ k <> 90) ->
            field b lo hi = field b' lo hi).
  { intros lo hi Hlo Hhi Hk. apply field_ext; try assumption.
    intros k H1 H2. destruct (Hk k H1 H2) as (?&?&?&?). apply H; lia. }
  assert (B : forall k, 0 <= k -> k < 128 -> k <> 5 -> k <> 6 -> k <> 81 -> k <> 90 ->
            field_byte b k = field_byte b' k).
  { intros k ? ? ? ? ? ?. apply field_byte_ext, H; assumption. }
  unfold decoded.
  rewrite (F 0 5), (F 7 41), (F 41 61), (F 61 81), (F 82 90), (F 91 95),
    (F 96 98), (F 98 100), (F 100 102), (F 102 104), (F 106 128) by lia.
  rewrite (B 94), (B 95), (B 104), (B 105) by lia.
  reflexivity.
Qed.

Lemma agree_at_app (pre w : list byte) (k : Z) :
  128 <= len w -> 0 <= k -> agree_at (pre ++ w) w k.
Proof.
  intros Hw Hk. unfold agree_at, offset, len in *.
  rewrite lookup_app_r by (rewrite length_app; lia).
  f_equal. rewrite length_app. lia.
Qed.

(** Bytes in front of the window change nothing. *)
Lemma ParseBytes_app (pre w : list byte) :
  128 <= len w -> ParseBytes (pre ++ w) = ParseBytes w.
Proof.
  intros Hw. apply ParseBytes_ext; [|assumption|].
  - unfold len in *. rewrite length_app. lia.
  - intros k Hk _ _ _ _ _. apply agree_at_app; assumption.
Qed.

Lemma len_with_byte (b : list byte) (i : Z) (x : byte) :
  len (with_byte b i x) = len b.
Proof. unfold with_byte, len. now rewrite length_insert. Qed.

Lemma agree_at_with_byte (b : list byte) (i k : Z) (x : byte) :
  128 <= len b -> 0 <= i -> 0 <= k -> k <> i ->
  agree_at (with_byte b i x) b k.
Proof.
  intros Hb Hi Hk Hne. unfold agree_at. unfold offset at 1.
  rewrite len_with_byte. fold (offset b). unfold with_byte.
  apply list_lookup_insert_ne. unfold offset. lia.
Qed.

Lemma field_byte_with_byte (b : list byte) (i : Z) (x : byte) :
  128 <= len b -> 0 <= i -> i < 128 ->
  field_byte (with_byte b i x) i = x.
Proof.
  intros Hb Hi H128. unfold field_byte. unfold offset at 1.
  rewrite len_with_byte. fold (offset b). unfold with_byte.
  rewrite list_lookup_insert_eq; [reflexivity|]. unfold offset, len in *. lia.
Qed.

Lemma Equal_true (a b : list byte) : bytes.Equal a b = true <-> a = b.
Proof. unfold bytes.Equal. apply bool_decide_eq_true. Qed.

Lemma Equal_false (a b : list byte) : bytes.Equal a b = false <-> a <> b.
Proof. unfold bytes.Equal. apply bool_decide_eq_false. Qed.

Lemma ParseBytes_success (b : list byte) :
  128 <= len b -> field b 0 5 = ID ->
  ParseBytes b = ret (Some (decoded b), None).
Proof.
  intros Hb Hsig. rewrite ParseBytes_unfold by assumption.
  apply Equal_true in Hsig. now rewrite Hsig.
Qed.

Lemma ParseBytes_no_signature (b : list byte) :
  128 <= len b -> field b 0 5 <> ID ->
  ParseBytes b = ret (None, Some (errors_New "No SAUCE record")).
Proof.
  intros Hb Hsig. rewrite ParseBytes_unfold by assumption.
  apply Equal_false in Hsig. now rewrite Hsig.
Qed.

(** A successful decoding, read backwards. *)
Lemma ParseBytes_inv (b : list byte) (r : SAUCE.t) :
  ParseBytes b = ret (Some r, None) ->
  128 <= len b /\ field b 0 5 = ID /\ r = decoded b.
Proof.
  intros H. destruct (Z_lt_ge_dec (len b) 128) as [Hlt|Hge].
  - rewrite ParseBytes_short in H by assumption. discriminate.
  - assert (Hb : 128 <= len b) by lia.
    rewrite ParseBytes_unfold in H by assumption.
    destruct (bytes.Equal (field b 0 5) ID) eqn:E; [|discriminate].
    apply Equal_true in E. inversion H. auto.
Qed.

Lemma field_signature (b : list byte) :
  128 <= len b -> field b 0 5 = take 5 (drop (length b - 128) b).
Proof.
  intros Hb. unfold field, offset, len in *. f_equal. f_equal. lia.
Qed.

Lemma field_trailing (b : list byte) :
  128 <= len b -> field b 106 128 = drop (length b - 22) b.
Proof.
  intros Hb. unfold field, offset, len in *.
  rewrite take_ge by (rewrite length_drop; lia). f_equal. lia.
Qed.

(** ** Errors of [ParseBytes] *)

(** C2: for every buffer, [ParseBytes] returns the short-read error exactly
    when the buffer has fewer than 128 bytes, the missing-signature error
    exactly when it has at least 128 bytes and the five bytes at offset
    [len(b) - 128] are not "SAUCE", and no error in every other case; a
    failure comes with a nil record and a success with a record. *)
Theorem ParseBytes_errors (b : list byte) :
  exists (r : option SAUCE.t) (e : option error),
    ParseBytes b = ret (r, e) /\
    (e = Some (errors_New "Short read") <-> len b < 128) /\
    (e = Some (errors_New "No SAUCE record") <->
       128 <= len b /\ take 5 (drop (length b - 128) b) <> ID) /\
    (e = None <-> 128 <= len b /\ take 5 (drop (length b - 128) b) = ID) /\
    (e <> None -> r = None) /\
    (e = None -> r = Some (decoded b)) /\
    ID = list_byte_of_string "SAUCE".
Proof.
  destruct (Z_lt_ge_dec (len b) 128) as [Hlt|Hge].
  - exists None, (Some (errors_New "Short read")).
    rewrite ParseBytes_short by assumption.
    repeat split; try discriminate; try congruence; try lia; intros []; lia.
  - assert (Hb : 128 <= len b) by lia.
    rewrite <- field_signature by assumption.
    destruct (decide (field b 0 5 = ID)) as [Hsig|Hsig].
    + exists (Some (decoded b)), None.
      rewrite ParseBytes_success by assumption.
      repeat split; try discriminate; try congruence; try lia; tauto.
    + exists None, (Some (errors_New "No SAUCE record")).
      rewrite ParseBytes_no_signature by assumption.
      repeat split; try discriminate; try congruence; try lia; tauto.
Qed.

(** ** Signature and version of a decoded record *)

(** C7: on every buffer that [ParseBytes] accepts, the record's [ID] is the
    constant "SAUCE" and its [Version] the constant [0, 0]; and the bytes at
    window offsets 5 and 6 are not read: whatever is put there, the result is
    the same. *)
Theorem ParseBytes_stamps_constants (b : list byte) (r : SAUCE.t) :
  ParseBytes b = ret (Some r, None) ->
  SAUCE.ID r = list_byte_of_string "SAUCE" /\
  SAUCE.Version r = [x00; x00] /\
  forall x y : byte,
    ParseBytes (with_byte (with_byte b 5 x) 6 y) = ret (Some r, None).
Proof.
  intros H. destruct (ParseBytes_inv b r H) as (Hb & Hsig & ->).
  split; [reflexivity|]. split; [reflexivity|].
  intros x y. rewrite <- H.
  transitivity (ParseBytes (with_byte b 5 x)).
  - apply ParseBytes_ext; rewrite ?len_with_byte; try assumption.
    intros k ? ? ? ? ? ?. apply agree_at_with_byte;
      rewrite ?len_with_byte; lia.
  - apply ParseBytes_ext; rewrite ?len_with_byte; try assumption.
    intros k ? ? ? ? ? ?. apply agree_at_with_byte; lia.
Qed.

Lemma ParseBytes_stamps_constants_witness :
  exists r, ParseBytes fixture = ret (Some r, None) /\
    SAUCE.ID r = list_byte_of_string "SAUCE" /\
    SAUCE.Version r = [x00; x00] /\
    ParseBytes (with_byte (with_byte fixture 5 "0"%byte) 6 "1"%byte)
      = ret (Some r, None).
Proof.
  exists (decoded fixture).
  assert (H : ParseBytes fixture = ret (Some (decoded fixture), None))
    by (vm_compute; reflexivity).
  destruct (ParseBytes_stamps_constants fixture (decoded fixture) H)
    as (H1 & H2 & H3).
  split; [exact H|]. split; [exact H1|]. split; [exact H2|apply H3].
Defined.

(** ** The trailing information *)

(** C9: on every buffer that [ParseBytes] accepts, [TInfos] is the slice from
    window offset 106 to the end of the buffer, exactly 22 bytes long, and
    the same whatever bytes are put in front of the buffer. *)
Theorem TInfos_length (b : list byte) (r : SAUCE.t) :
  ParseBytes b = ret (Some r, None) ->
  length (SAUCE.TInfos r) = 22%nat /\
  SAUCE.TInfos r = drop (Z.to_nat (len b - 128 + 106)) b /\
  SAUCE.TInfos r = drop (length b - 22) b /\
  forall pre : list byte,
    exists r', ParseBytes (pre ++ b) = ret (Some r', None) /\
               SAUCE.TInfos r' = SAUCE.TInfos r /\
               length (SAUCE.TInfos r') = 22%nat.
Proof.
  intros H. destruct (ParseBytes_inv b r H) as (Hb & Hsig & ->).
  assert (L : length (SAUCE.TInfos (decoded b)) = 22%nat).
  { cbn [decoded SAUCE.TInfos]. rewrite length_field by lia. reflexivity. }
  split; [exact L|]. split; [|split].
  - cbn [decoded SAUCE.TInfos]. rewrite field_trailing by assumption.
    f_equal. unfold len in *. lia.
  - cbn [decoded SAUCE.TInfos]. apply field_trailing; assumption.
  - intros pre. exists (decoded b). rewrite ParseBytes_app by assumption.
    auto.
Qed.

Lemma TInfos_length_witness :
  exists r, ParseBytes (repeat xff 300 ++ fixture) = ret (Some r, None) /\
            length (SAUCE.TInfos r) = 22%nat.
Proof.
  exists (decoded (repeat xff 300 ++ fixture)).
  assert (H : ParseBytes (repeat xff 300 ++ fixture)
              = ret (Some (decoded (repeat xff 300 ++ fixture)), None))
    by (vm_compute; reflexivity).
  split; [exact H|].
  exact (proj1 (TInfos_length _ _ H)).
Defined.

(** ** Totality *)

Lemma strslice_in_bounds (s : string) (lo hi : Z) :
  0 <= lo -> lo <= hi -> hi <= Z.of_nat (String.length s) ->
  returns (strslice s lo hi).
Proof.
  intros H1 H2 H3. unfold strslice, returns.
  destruct (0 <=? lo) eqn:E1; [|lia].
  destruct (lo <=? hi) eqn:E2; [|lia].
  destruct (hi <=? Z.of_nat (String.length s)) eqn:E3; [|lia].
  simpl. eauto.
Qed.

(** C10: [ParseBytes] returns on every buffer (an error or a record, never a
    panic).  With at least 128 bytes every slice and index inside the window
    is in bounds, the slice [b[106+o:]] included, and [parseDate] is called
    on a string of exactly 8 characters, on which its three slices are in
    bounds and it returns. *)
Theorem ParseBytes_total (b : list byte) :
  returns (ParseBytes b) /\
  (128 <= len b ->
     let o := len b - 128 in
     (forall lo hi, 0 <= lo -> lo <= hi -> hi <= 128 ->
        returns (slice b (o + lo) (o + hi))) /\
     (forall i, 0 <= i -> i < 128 -> returns (index b (o + i))) /\
     returns (slice_from b (106 + o)) /\
     exists d, slice b (o + 82) (o + 90) = ret d /\
       String.length (string_of_list_byte d) = 8%nat /\
       returns (parseDate (string_of_list_byte d))) /\
  (forall s, String.length s = 8%nat ->
     returns (strslice s 0 4) /\ returns (strslice s 4 6) /\
     returns (strslice s 6 8) /\ returns (parseDate s)).
Proof.
  split; [|split].
  - destruct (Z_lt_ge_dec (len b) 128) as [Hlt|Hge].
    + rewrite ParseBytes_short by assumption. eexists; reflexivity.
    + rewrite ParseBytes_unfold by lia.
      destruct (bytes.Equal (field b 0 5) ID); eexists; reflexivity.
  - intros Hb o. subst o. change (len b - 128) with (offset b).
    split; [|split; [|split]].
    + intros lo hi ? ? ?. rewrite slice_window by lia. eexists; reflexivity.
    + intros i ? ?. rewrite index_window by lia. eexists; reflexivity.
    + rewrite Z.add_comm, slice_from_window by lia. eexists; reflexivity.
    + exists (field b 82 90). rewrite slice_window by lia.
      assert (L : String.length (string_of_list_byte (field b 82 90)) = 8%nat)
        by (rewrite length_string_of_list_byte, length_field by lia; reflexivity).
      repeat split; [exact L|].
      rewrite parseDate_dateOf by exact L. eexists; reflexivity.
  - intros s Hs.
    repeat split; try (apply strslice_in_bounds; rewrite ?Hs; lia).
    rewrite parseDate_dateOf by exact Hs. eexists; reflexivity.
Qed.

(** ** The flags byte *)

Lemma uint8_range (x : byte) : 0 <= uint8 x <= 255.
Proof.
  unfold uint8. pose proof (Byte.to_N_bounded x) as H. lia.
Qed.

Lemma land_1 (f : Z) : Z.land f 1 = f mod 2.
Proof. change 1 with (Z.ones 1). rewrite Z.land_ones by lia. reflexivity. Qed.

Lemma land_shiftr_3 (f n : Z) :
  0 <= n -> Z.land (Z.shiftr f n) 3 = (f / 2 ^ n) mod 4.
Proof.
  intros Hn. change 3 with (Z.ones 2). rewrite Z.land_ones by lia.
  rewrite Z.shiftr_div_pow2 by lia. reflexivity.
Qed.

(** Bits 5 to 7 of the flags byte have no effect. *)
Lemma flagsOf_mod_32 (f g : Z) : f mod 32 = g mod 32 -> flagsOf f = flagsOf g.
Proof.
  intros H. unfold flagsOf.
  rewrite !land_1, !land_shiftr_3 by lia.
  change (2 ^ 1) with 2. change (2 ^ 3) with 8.
  assert (H2 : f mod 2 = g mod 2) by (revert H; Z.div_mod_to_equations; lia).
  assert (H4 : (f / 2) mod 4 = (g / 2) mod 4)
    by (revert H; Z.div_mod_to_equations; lia).
  assert (H8 : (f / 8) mod 4 = (g / 8) mod 4)
    by (revert H; Z.div_mod_to_equations; lia).
  rewrite H2, H4, H8. reflexivity.
Qed.

(** C3: on every buffer that [ParseBytes] accepts, with [f] the byte at window
    offset 105, [NonBlink] is [f & 1 == 1] (bit 0), [LetterSpacing] is
    [(f >> 1) & 3] (bits 1-2) and [AspectRatio] is [(f >> 3) & 3] (bits 3-4),
    each of the two within 0..3; every byte value put at offset 105 is
    accepted and decoded the same way, and two flag bytes that differ only in
    bits 5 to 7 give the same flags. *)
Theorem TFlags_decoding (b : list byte) (r : SAUCE.t) :
  ParseBytes b = ret (Some r, None) ->
  let f := uint8 (field_byte b 105) in
  let t := SAUCE.TFlags r in
  0 <= f <= 255 /\
  TFlags.NonBlink t = (Z.land f 1 =? 1) /\
  TFlags.NonBlink t = Z.testbit f 0 /\
  TFlags.LetterSpacing t = Z.land (Z.shiftr f 1) 3 /\
  TFlags.LetterSpacing t = (f / 2) mod 4 /\
  TFlags.AspectRatio t = Z.land (Z.shiftr f 3) 3 /\
  TFlags.AspectRatio t = (f / 8) mod 4 /\
  0 <= TFlags.LetterSpacing t <= 3 /\
  0 <= TFlags.AspectRatio t <= 3 /\
  forall x : byte,
    exists r', ParseBytes (with_byte b 105 x) = ret (Some r', None) /\
      SAUCE.TFlags r' =
        TFlags.mk (Z.land (uint8 x) 1 =? 1)
                  (Z.land (Z.shiftr (uint8 x) 1) 3)
                  (Z.land (Z.shiftr (uint8 x) 3) 3) /\
      (uint8 x mod 32 = f mod 32 -> SAUCE.TFlags r' = t).
Proof.
  intros H f t. destruct (ParseBytes_inv b r H) as (Hb & Hsig & ->).
  subst t. cbn [decoded SAUCE.TFlags]. fold f. unfold flagsOf.
  cbn [TFlags.NonBlink TFlags.LetterSpacing TFlags.AspectRatio].
  pose proof (uint8_range (field_byte b 105)) as Hf. fold f in Hf.
  rewrite !land_1, !land_shiftr_3 by lia.
  change (2 ^ 1) with 2. change (2 ^ 3) with 8.
  split; [exact Hf|]. split; [reflexivity|].
  split.
  { rewrite Z.bit0_odd, Zodd_mod. reflexivity. }
  split; [reflexivity|]. split; [reflexivity|].
  split; [reflexivity|]. split; [reflexivity|].
  split; [pose proof (Z.mod_pos_bound (f / 2) 4); lia|].
  split; [pose proof (Z.mod_pos_bound (f / 8) 4); lia|].
  intros x.
  assert (Hb' : 128 <= len (with_byte b 105 x)) by (rewrite len_with_byte; lia).
  assert (Hsig' : field (with_byte b 105 x) 0 5 = ID).
  { rewrite <- Hsig. apply field_ext; try assumption; [lia|].
    intros k ? ?. apply agree_at_with_byte; lia. }
  exists (decoded (with_byte b 105 x)).
  rewrite ParseBytes_success by assumption.
  split; [reflexivity|].
  cbn [decoded SAUCE.TFlags]. rewrite field_byte_with_byte by lia.
  split; [reflexivity|].
  intros Hx. fold (flagsOf (uint8 x)).
  rewrite (flagsOf_mod_32 _ _ Hx). unfold flagsOf.
  rewrite !land_1, !land_shiftr_3 by lia. reflexivity.
Qed.

Lemma TFlags_decoding_witness :
  exists r, ParseBytes fixture = ret (Some r, None) /\
    TFlags.NonBlink (SAUCE.TFlags r) = true /\
    TFlags.LetterSpacing (SAUCE.TFlags r) = 2 /\
    TFlags.AspectRatio (SAUCE.TFlags r) = 0.
Proof.
  exists (decoded fixture).
  assert (H : ParseBytes fixture = ret (Some (decoded fixture), None))
    by (vm_compute; reflexivity).
  destruct (TFlags_decoding fixture (decoded fixture) H)
    as (_ & H1 & _ & H2 & _ & H3 & _).
  split; [exact H|]. split; [|split].
  - rewrite H1. vm_compute. reflexivity.
  - rewrite H2. vm_compute. reflexivity.
  - rewrite H3. vm_compute. reflexivity.
Defined.

(** ** [strconv.Atoi] on short strings *)

Lemma byteval_range (c : ascii) : 0 <= byteval c < 256.
Proof. unfold byteval. pose proof (N_ascii_bounded c). lia. Qed.

Lemma digit_step (c : ascii) :
  (9 <? (byteval c - 48) mod 256) = negb (is_digit c) /\
  (is_digit c = true -> (byteval c - 48) mod 256 = byteval c - 48).
Proof.
  unfold is_digit. pose proof (byteval_range c) as Hc.
  destruct (48 <=? byteval c) eqn:E1; destruct (byteval c <=? 57) eqn:E2;
    cbn [andb negb]; (split; [|intros; try discriminate]).
  - apply Z.ltb_ge. rewrite Z.mod_small by lia. lia.
  - apply Z.mod_small. lia.
  - apply Z.ltb_lt. rewrite Z.mod_small by lia. lia.
  - apply Z.ltb_lt.
    replace (byteval c - 48) with (byteval c + 208 + (-1) * 256) by lia.
    rewrite Z.mod_add by lia. rewrite Z.mod_small by lia. lia.
  - lia.
Qed.

Lemma digits_all_digits (s : string) (n : Z) :
  strconv.digits s n =
    if all_digits s then Some (digits_value s n) else None.
Proof.
  revert n. induction s as [|c s IH]; intros n; cbn [strconv.digits all_digits digits_value].
  - reflexivity.
  - destruct (digit_step c) as [H1 H2]. rewrite H1.
    destruct (is_digit c) eqn:E; cbn [negb andb]; [|reflexivity].
    rewrite H2 by reflexivity. apply IH.
Qed.

Lemma substring_all (s : string) : substring 0 (String.length s) s = s.
Proof. induction s as [|c s IH]; simpl; [reflexivity|]. now rewrite IH. Qed.

Lemma length_substring (s : string) (n m : nat) :
  (n + m <= String.length s)%nat -> String.length (substring n m s) = m.
Proof.
  revert n m. induction s as [|c s IH]; intros n m H; simpl in H.
  - destruct n, m; simpl; lia.
  - destruct n as [|n]; destruct m as [|m]; simpl; try reflexivity.
    + rewrite (IH 0%nat m) by lia. reflexivity.
    + apply (IH n 0%nat). lia.
    + apply (IH n (S m)). lia.
Qed.

(** On 1 to 18 characters [Atoi] gives the integer the string denotes and no
    error, or [0] and a syntax error when the string denotes none. *)
Lemma Atoi_decimal (s : string) :
  (0 < String.length s)%nat -> (String.length s < 19)%nat ->
  strconv.Atoi s =
    match decimal s with
    | Some v => (v, None)
    | None => (0, Some strconv.ErrSyntax)
    end.
Proof.
  intros H0 H19. unfold strconv.Atoi.
  destruct (Nat.ltb_spec 0 (String.length s)) as [_|]; [|lia].
  destruct (Nat.ltb_spec (String.length s) 19) as [_|]; [|lia].
  cbn [andb]. destruct s as [|c s]; [simpl in H0; lia|].
  change (strbyte (String c s) 0) with (byteval c).
  unfold decimal.
  destruct ((byteval c =? 45) || (byteval c =? 43)) eqn:Esign.
  - unfold strdrop. cbn [String.length]. rewrite Nat.sub_succ, Nat.sub_0_r.
    cbn [substring]. rewrite substring_all.
    destruct s as [|c' s']; [reflexivity|].
    cbn [andb String.length Nat.ltb Nat.leb].
    rewrite digits_all_digits.
    destruct (all_digits (String c' s')); [|reflexivity].
    destruct (byteval c =? 45); reflexivity.
  - rewrite digits_all_digits. cbn [andb].
    destruct (all_digits (String c s)); [|reflexivity].
    apply orb_false_iff in Esign as [-> _]. reflexivity.
Qed.

Lemma Atoi_decimal_or_zero (s : string) :
  (0 < String.length s)%nat -> (String.length s < 19)%nat ->
  fst (strconv.Atoi s) = decimal_or_zero s.
Proof.
  intros H0 H19. rewrite Atoi_decimal by assumption. unfold decimal_or_zero.
  destruct (decimal s); reflexivity.
Qed.

(** ** Normalization in [time.Date] *)

Lemma norm_floor (hi lo base : Z) :
  0 < base -> time.norm hi lo base = (hi + lo / base, lo mod base).
Proof.
  intros Hb. unfold time.norm.
  destruct (lo <? 0) eqn:E.
  - apply Z.ltb_lt in E.
    rewrite Z.quot_div_nonneg by lia.
    assert (R : 0 <= lo + ((- lo - 1) / base + 1) * base < base).
    { pose proof (Z.div_mod (- lo - 1) base ltac:(lia)) as D.
      pose proof (Z.mod_pos_bound (- lo - 1) base Hb) as B. nia. }
    destruct (base <=? lo + ((- lo - 1) / base + 1) * base) eqn:E2; [lia|].
    assert (Q : lo / base = - ((- lo - 1) / base + 1)).
    { symmetry. apply (Z.div_unique_pos lo base _
        (lo + ((- lo - 1) / base + 1) * base)); [lia|nia]. }
    assert (M : lo mod base = lo + ((- lo - 1) / base + 1) * base).
    { symmetry. apply (Z.mod_unique_pos lo base (- ((- lo - 1) / base + 1)));
        [lia|nia]. }
    rewrite Q, M. f_equal; lia.
  - apply Z.ltb_ge in E.
    destruct (base <=? lo) eqn:E2.
    + rewrite Z.quot_div_nonneg by lia.
      pose proof (Z.div_mod lo base ltac:(lia)) as D.
      rewrite Z.mod_eq by lia. f_equal; lia.
    + apply Z.leb_gt in E2.
      rewrite Z.div_small, Z.mod_small by lia. f_equal; lia.
Qed.

(** Twelve months more are one year more. *)
Lemma Date_month_overflow (y m d : Z) :
  time.Date y (m + 12) d 0 0 0 0 = time.Date (y + 1) m d 0 0 0 0.
Proof.
  unfold time.Date. rewrite !norm_floor by lia.
  replace (m + 12 - 1) with (m - 1 + 1 * 12) by lia.
  rewrite Z.div_add, Z.mod_add by lia.
  replace (y + ((m - 1) / 12 + 1)) with (y + 1 + (m - 1) / 12) by lia.
  reflexivity.
Qed.

(** One day more, whatever the day, is 86400 seconds later. *)
Lemma Date_day_overflow (y m d : Z) :
  time.unix (time.Date y m (d + 1) 0 0 0 0)
  = time.unix (time.Date y m d 0 0 0 0) + 86400.
Proof.
  unfold time.Date. rewrite !norm_floor by lia.
  change (0 / 1000000000) with 0. change (0 mod 1000000000) with 0.
  change (0 + 0) with 0. change (0 / 60) with 0. change (0 mod 60) with 0.
  change (0 + 0) with 0. change (0 / 24) with 0. change (0 mod 24) with 0.
  rewrite !Z.add_0_r. cbv zeta.
  destruct (time.isLeap (y + (m - 1) / 12) && (time.March <=? (m - 1) mod 12 + 1));
    cbn [time.unix]; unfold time.secondsPerDay; lia.
Qed.


(** ** The date decoder *)



(** ** Classification *)

Section ClassificationProperties.

Variable DataType : gomap string.
Variable FileType : gomap (gomap string).
Variable MimeType : gomap (gomap string).
Variables DataTypeBinaryText DataTypeXBIN DataTypeExecutable : Z.

(** The three codes are the cases of one [switch] in [FileTypeString], which
    the compiler accepts only when they are distinct constants. *)
Hypothesis distinct_codes :
  DataTypeBinaryText <> DataTypeXBIN /\
  DataTypeBinaryText <> DataTypeExecutable /\
  DataTypeXBIN <> DataTypeExecutable.

(** C6: [FileTypeString] returns the inner lookup
    [FileType[DataType][FileType]] when the entry [FileType[DataType]] is
    there (not nil); when it is not, "BinaryText", "XBin" or "Executable" for
    the corresponding data type code, and the empty string for every other
    code. *)
Theorem FileTypeString_lookup (r : SAUCE.t) :
  (forall inner : gmap Z string,
     mapindex None FileType (SAUCE.DataType r) = Some inner ->
     FileTypeString FileType DataTypeBinaryText DataTypeXBIN DataTypeExecutable r
     = default "" (inner !! SAUCE.FileType r)) /\
  (mapindex None FileType (SAUCE.DataType r) = None ->
     (SAUCE.DataType r = DataTypeBinaryText ->
      FileTypeString FileType DataTypeBinaryText DataTypeXBIN DataTypeExecutable r
      = "BinaryText") /\
     (SAUCE.DataType r = DataTypeXBIN ->
      FileTypeString FileType DataTypeBinaryText DataTypeXBIN DataTypeExecutable r
      = "XBin") /\
     (SAUCE.DataType r = DataTypeExecutable ->
      FileTypeString FileType DataTypeBinaryText DataTypeXBIN DataTypeExecutable r
      = "Executable") /\
     (SAUCE.DataType r <> DataTypeBinaryText ->
      SAUCE.DataType r <> DataTypeXBIN ->
      SAUCE.DataType r <> DataTypeExecutable ->
      FileTypeString FileType DataTypeBinaryText DataTypeXBIN DataTypeExecutable r
      = "")).
Proof.
  destruct distinct_codes as (D1 & D2 & D3).
  unfold FileTypeString. split.
  - intros inner H. rewrite H. reflexivity.
  - intros H. rewrite H. repeat split.
    + intros E. rewrite E, Z.eqb_refl. reflexivity.
    + intros E. rewrite E.
      destruct (Z.eqb_spec DataTypeXBIN DataTypeBinaryText); [congruence|].
      rewrite Z.eqb_refl. reflexivity.
    + intros E. rewrite E.
      destruct (Z.eqb_spec DataTypeExecutable DataTypeBinaryText); [congruence|].
      destruct (Z.eqb_spec DataTypeExecutable DataTypeXBIN); [congruence|].
      rewrite Z.eqb_refl. reflexivity.
    + intros N1 N2 N3.
      destruct (Z.eqb_spec (SAUCE.DataType r) DataTypeBinaryText); [congruence|].
      destruct (Z.eqb_spec (SAUCE.DataType r) DataTypeXBIN); [congruence|].
      destruct (Z.eqb_spec (SAUCE.DataType r) DataTypeExecutable); [congruence|].
      reflexivity.
Qed.

(** C5: [MimeType] never returns the empty string.  When the entry
    [MimeType[DataType]] is not there (nil), the binary-text code gives
    "text/x-binary" and the XBin code "text/x-xbin", the executable code and
    every other code "application/octet-stream"; when the entry is there, the
    inner lookup is returned unless it is empty, in which case the result is
    "application/octet-stream" again. *)
Theorem MimeType_never_empty (r : SAUCE.t) :
  SAUCE_MimeType MimeType DataTypeBinaryText DataTypeXBIN r <> "" /\
  (mapindex None MimeType (SAUCE.DataType r) = None ->
     (SAUCE.DataType r = DataTypeBinaryText ->
      SAUCE_MimeType MimeType DataTypeBinaryText DataTypeXBIN r = "text/x-binary") /\
     (SAUCE.DataType r = DataTypeXBIN ->
      SAUCE_MimeType MimeType DataTypeBinaryText DataTypeXBIN r = "text/x-xbin") /\
     (SAUCE.DataType r = DataTypeExecutable ->
      SAUCE_MimeType MimeType DataTypeBinaryText DataTypeXBIN r
      = "application/octet-stream") /\
     (SAUCE.DataType r <> DataTypeBinaryText ->
      SAUCE.DataType r <> DataTypeXBIN ->
      SAUCE_MimeType MimeType DataTypeBinaryText DataTypeXBIN r
      = "application/octet-stream")) /\
  (forall inner : gmap Z string,
     mapindex None MimeType (SAUCE.DataType r) = Some inner ->
     (default "" (inner !! SAUCE.FileType r) = "" ->
      SAUCE_MimeType MimeType DataTypeBinaryText DataTypeXBIN r
      = "application/octet-stream") /\
     (default "" (inner !! SAUCE.FileType r) <> "" ->
      SAUCE_MimeType MimeType DataTypeBinaryText DataTypeXBIN r
      = default "" (inner !! SAUCE.FileType r))).
Proof.
  destruct distinct_codes as (D1 & D2 & D3).
  assert (Other : SAUCE.DataType r <> DataTypeBinaryText ->
                  SAUCE.DataType r <> DataTypeXBIN ->
                  mapindex None MimeType (SAUCE.DataType r) = None ->
                  SAUCE_MimeType MimeType DataTypeBinaryText DataTypeXBIN r
                  = "application/octet-stream").
  { intros N1 N2 H. unfold SAUCE_MimeType. rewrite H.
    destruct (Z.eqb_spec (SAUCE.DataType r) DataTypeBinaryText); [congruence|].
    destruct (Z.eqb_spec (SAUCE.DataType r) DataTypeXBIN); [congruence|].
    reflexivity. }
  split; [|split].
  - unfold SAUCE_MimeType.
    destruct (mapindex None MimeType (SAUCE.DataType r)) as [inner|].
    + cbn [mapindex]. case_bool_decide as E; [discriminate|exact E].
    + destruct (SAUCE.DataType r =? DataTypeBinaryText); [discriminate|].
      destruct (SAUCE.DataType r =? DataTypeXBIN); discriminate.
  - intros H. repeat split.
    + intros E. unfold SAUCE_MimeType. rewrite H, E, Z.eqb_refl. reflexivity.
    + intros E. unfold SAUCE_MimeType. rewrite H, E.
      destruct (Z.eqb_spec DataTypeXBIN DataTypeBinaryText); [congruence|].
      rewrite Z.eqb_refl. reflexivity.
    + intros E. apply Other; [congruence|congruence|exact H].
    + intros N1 N2. apply Other; assumption.
  - intros inner H. unfold SAUCE_MimeType. rewrite H. cbn [mapindex].
    split; intros E.
    + rewrite E. reflexivity.
    + case_bool_decide as E'; [contradiction|reflexivity].
Qed.

End ClassificationProperties.

Lemma FileTypeString_lookup_witness :
  FileTypeString sampleFileType 5 6 8 (sampleRecord 1 1) = "ANSi" /\
  FileTypeString sampleFileType 5 6 8 (sampleRecord 6 0) = "XBin" /\
  FileTypeString sampleFileType 5 6 8 (sampleRecord 3 0) = "".
Proof.
  assert (D : 5 <> 6 /\ 5 <> 8 /\ 6 <> 8) by lia.
  split; [|split].
  - exact (proj1 (FileTypeString_lookup sampleFileType 5 6 8 D (sampleRecord 1 1))
             (<[0 := "ASCII"]> (<[1 := "ANSi"]> ∅)) eq_refl).
  - destruct (FileTypeString_lookup sampleFileType 5 6 8 D (sampleRecord 6 0))
      as [_ H]. exact (proj1 (proj2 (H eq_refl)) eq_refl).
  - destruct (FileTypeString_lookup sampleFileType 5 6 8 D (sampleRecord 3 0))
      as [_ H]. apply (proj2 (proj2 (proj2 (H eq_refl)))); cbn; lia.
Defined.

Lemma MimeType_never_empty_witness :
  SAUCE_MimeType sampleMimeType 5 6 (sampleRecord 1 7) = "application/octet-stream" /\
  SAUCE_MimeType sampleMimeType 5 6 (sampleRecord 5 0) = "text/x-binary" /\
  SAUCE_MimeType sampleMimeType 5 6 (sampleRecord 8 0) = "application/octet-stream".
Proof.
  assert (D : 5 <> 6 /\ 5 <> 8 /\ 6 <> 8) by lia.
  split; [|split].
  - destruct (MimeType_never_empty sampleMimeType 5 6 8 D (sampleRecord 1 7))
      as (_ & _ & H).
    exact (proj1 (H (<[0 := "text/plain"]> (<[1 := "text/x-ansi"]> ∅)) eq_refl)
             eq_refl).
  - destruct (MimeType_never_empty sampleMimeType 5 6 8 D (sampleRecord 5 0))
      as (_ & H & _). exact (proj1 (H eq_refl) eq_refl).
  - destruct (MimeType_never_empty sampleMimeType 5 6 8 D (sampleRecord 8 0))
      as (_ & H & _). exact (proj1 (proj2 (proj2 (H eq_refl))) eq_refl).
Defined.

(** ** The fixture *)


(** The byte at window offset 94 is the last byte of the size field. *)
Lemma size_field_last_byte (w : list byte) :
  128 <= len w -> field_byte w 94 = nth 3 (field w 91 95) x00.
Proof.
  intros Hw. unfold field_byte, field. rewrite nth_lookup.
  rewrite lookup_take_lt by (simpl; lia). rewrite lookup_drop.
  f_equal. f_equal. unfold offset, len in *. lia.
Qed.

(** No window holds both the four bytes of 1024 at offset 91 and the data
    type code 1 at offset 94. *)
Lemma size_field_conflict (w : list byte) :
  128 <= len w ->
  field w 91 95 = PutUint32 1024 -> field_byte w 94 <> byte_of_Z 1.
Proof.
  intros Hw Hsize. rewrite size_field_last_byte, Hsize by assumption.
  vm_compute. discriminate.
Qed.

(** On the fixture the size field reads 1024 with the data type code 1 as its
    high byte; with the size written last it reads 1024 and the data type
    code reads 0. *)
Lemma fixture_FileSize :
  SAUCE.FileSize (decoded fixture) = 1024 + 1 * 2 ^ 24 /\
  SAUCE.DataType (decoded fixture) = 1 /\
  SAUCE.FileSize (decoded fixture_size_last) = 1024 /\
  SAUCE.DataType (decoded fixture_size_last) = 0.
Proof. repeat split; vm_compute; reflexivity. Qed.




(** ** [Parse] on a section reader *)

(** Sections shorter than 128 bytes: [Seek] refuses the offset, and [Parse]
    returns that error, not [errShortRead]; nothing is read. *)
Lemma Parse_below_128 (s : io.SectionReader) :
  io.Size s < 128 -> Parse s = (s, ret (None, Some io_errOffset)).
Proof.
  intros H. unfold io.Size in H. unfold Parse, io.Seek.
  change (2 =? io.SeekStart) with false. change (2 =? io.SeekCurrent) with false.
  change (2 =? io.SeekEnd) with true. cbv iota.
  destruct (Z.ltb_spec (-128 + io.limit s) (io.base s)); [reflexivity|lia].
Qed.

(** Sections of 128 to 255 bytes: [n] is the new offset [Size - 128], which
    is below 128, and [Parse] returns [errShortRead] before reading. *)
Lemma Parse_below_256 (s : io.SectionReader) :
  128 <= io.Size s -> io.Size s < 256 ->
  Parse s =
    (io.mk (io.r s) (io.base s) (io.limit s - 128) (io.limit s) (io.trace s),
     ret (None, Some errShortRead)).
Proof.
  intros H1 H2. unfold io.Size in *. unfold Parse, io.Seek.
  change (2 =? io.SeekStart) with false. change (2 =? io.SeekCurrent) with false.
  change (2 =? io.SeekEnd) with true. cbv iota.
  destruct (Z.ltb_spec (-128 + io.limit s) (io.base s)); [lia|].
  cbn [bool_decide decide_rel]. 
  destruct (Z.ltb_spec (-128 + io.limit s - io.base s) 128); [|lia].
  rewrite bool_decide_eq_false_2 by (intros E; apply E; reflexivity).
  do 2 f_equal. lia.
Qed.

(** Sections of at least 256 bytes: one read of the last 128 bytes, which
    [ParseBytes] decodes. *)
Lemma Parse_from_256 (s : io.SectionReader) :
  section_ok s -> 256 <= io.Size s ->
  Parse s =
    (io.mk (io.r s) (io.base s) (io.limit s) (io.limit s)
           (io.trace s ++ [(io.limit s - 128, 128)]),
     ParseBytes (drop (length (section_bytes s) - 128) (section_bytes s))).
Proof.
  intros (Hb & Hl & Hr) H. unfold io.Size in *. unfold Parse, io.Seek.
  change (2 =? io.SeekStart) with false. change (2 =? io.SeekCurrent) with false.
  change (2 =? io.SeekEnd) with true. cbv iota.
  destruct (Z.ltb_spec (-128 + io.limit s) (io.base s)); [lia|].
  rewrite bool_decide_eq_false_2 by (intros E; apply E; reflexivity).
  destruct (Z.ltb_spec (-128 + io.limit s - io.base s) 128); [lia|].
  unfold io.Read. cbn [io.limit io.off io.r io.base io.trace].
  destruct (Z.leb_spec (io.limit s) (-128 + io.limit s)); [lia|].
  replace (io.limit s - (-128 + io.limit s)) with 128 by lia.
  change (len (repeat x00 128)) with 128. change (128 <? 128) with false.
  cbv iota. unfold io.ReadAt.
  destruct (Z.ltb_spec (-128 + io.limit s) 0); [lia|].
  destruct (Z.leb_spec (len (io.r s)) (-128 + io.limit s)); [lia|].
  set (got := take (Z.to_nat 128) (drop (Z.to_nat (-128 + io.limit s)) (io.r s))).
  assert (Lgot : length got = 128%nat).
  { unfold got, len in *. rewrite length_take, length_drop. lia. }
  assert (Hlen : len got = 128) by (unfold len; rewrite Lgot; reflexivity).
  rewrite Hlen. change (128 <? 128) with false. cbv iota.
  rewrite bool_decide_eq_false_2 by (intros E; apply E; reflexivity).
  change (128 =? 128) with true. cbn [negb].
  rewrite Lgot. change (drop 128 (repeat x00 128)) with (@nil byte).
  rewrite app_nil_r.
  f_equal.
  - f_equal; [lia|]. do 3 f_equal. lia.
  - f_equal. unfold got, section_bytes, io.Size.
    rewrite length_take, length_drop.
    apply list_eq. intros i.
    unfold len in *.
    rewrite lookup_drop, !lookup_take, !lookup_drop.
    destruct (decide (i < Z.to_nat 128)%nat) as [Hi|Hi].
    + rewrite decide_True by lia. f_equal. lia.
    + rewrite decide_False by lia. reflexivity.
Qed.

(** C8: [Parse] on a section that is exactly one 128-byte record, the
    fixture.  The section has 128 bytes, which [ParseBytes] and the stream
    path decode, and the claim has [Parse] read and decode them; but [Parse]
    compares the offset returned by [Seek], [Size - 128 = 0], with 128 and
    returns [errShortRead] without reading.  On an empty section the error is
    the one of [Seek], not [errShortRead]. *)
Theorem Parse_short_read_on_128_bytes :
  io.Size (io.NewSectionReader fixture 0 128) = 128 /\
  snd (Parse (io.NewSectionReader fixture 0 128))
    = ret (None, Some errShortRead) /\
  io.trace (fst (Parse (io.NewSectionReader fixture 0 128))) = [] /\
  ParseBytes fixture = ret (Some (decoded fixture), None) /\
  ParseReader_read fixture = ret (Some (decoded fixture), None) /\
  snd (Parse (io.NewSectionReader (fixture ++ fixture) 0 256))
    = ret (Some (decoded fixture), None) /\
  snd (Parse (io.NewSectionReader [] 0 0)) = ret (None, Some io_errOffset).
Proof. repeat split; vm_compute; reflexivity. Qed.

(** * Further properties of the code *)

(** ** The window of [ParseBytes] *)

Lemma fixture_len : len fixture = 128.
Proof. vm_compute. reflexivity. Qed.

(** [ParseBytes] decodes the trailing 128 bytes: bytes put in front of a
    buffer of at least 128 bytes change neither the record nor the error. *)
Theorem ParseBytes_prefix_irrelevant (pre b : list byte) :
  128 <= len b -> ParseBytes (pre ++ b) = ParseBytes b.
Proof. apply ParseBytes_app. Qed.

Lemma ParseBytes_prefix_irrelevant_witness :
  ParseBytes (repeat xff 9 ++ fixture) = ParseBytes fixture.
Proof.
  apply (ParseBytes_prefix_irrelevant (repeat xff 9) fixture).
  rewrite fixture_len. lia.
Defined.

(** The bytes at window offsets 81 and 90, between the group and the date
    and between the date and the size, are never read: whatever they are
    replaced with, the result is the same. *)
Theorem ParseBytes_ignores_gaps (b : list byte) (x y : byte) :
  128 <= len b ->
  ParseBytes (with_byte (with_byte b 81 x) 90 y) = ParseBytes b.
Proof.
  intros Hb. transitivity (ParseBytes (with_byte b 81 x)).
  - apply ParseBytes_ext; rewrite ?len_with_byte; try assumption.
    intros k ? ? ? ? ? ?. apply agree_at_with_byte;
      rewrite ?len_with_byte; lia.
  - apply ParseBytes_ext; rewrite ?len_with_byte; try assumption.
    intros k ? ? ? ? ? ?. apply agree_at_with_byte; lia.
Qed.

Lemma ParseBytes_ignores_gaps_witness :
  ParseBytes (with_byte (with_byte fixture 81 xff) 90 "7"%byte)
  = ParseBytes fixture.
Proof.
  apply (ParseBytes_ignores_gaps fixture xff "7"%byte).
  rewrite fixture_len. lia.
Defined.

(** ** The integers of the record *)

Lemma land_shiftl_low (a b n : Z) :
  0 <= n -> 0 <= a < 2 ^ n -> Z.land a (Z.shiftl b n) = 0.
Proof.
  intros Hn Ha. apply Z.bits_inj'. intros i Hi.
  rewrite Z.land_spec, Z.bits_0.
  destruct (Z.lt_ge_cases i n) as [Hlt|Hge].
  - rewrite Z.shiftl_spec_low by assumption. apply andb_false_r.
  - assert (E : Z.testbit a i = false); [|rewrite E; reflexivity].
    apply Z.testbit_false; [assumption|].
    rewrite Z.div_small; [reflexivity|].
    split; [lia|]. apply Z.lt_le_trans with (2 ^ n); [lia|].
    apply Z.pow_le_mono_r; lia.
Qed.

Lemma lor_shiftl_add (a b n : Z) :
  0 <= n -> 0 <= a < 2 ^ n -> Z.lor a (Z.shiftl b n) = a + b * 2 ^ n.
Proof.
  intros Hn Ha. pose proof (land_shiftl_low a b n Hn Ha) as H.
  rewrite <- Z.lxor_lor by exact H.
  rewrite <- Z.add_nocarry_lxor by exact H.
  rewrite Z.shiftl_mul_pow2 by assumption. reflexivity.
Qed.

Lemma le16_value (l : list byte) :
  le16 l = uint8 (nth 0 l x00) + 2 ^ 8 * uint8 (nth 1 l x00).
Proof.
  unfold le16. pose proof (uint8_range (nth 0 l x00)).
  rewrite lor_shiftl_add by lia. lia.
Qed.

Lemma le32_value (l : list byte) :
  le32 l = uint8 (nth 0 l x00) + 2 ^ 8 * uint8 (nth 1 l x00)
           + 2 ^ 16 * uint8 (nth 2 l x00) + 2 ^ 24 * uint8 (nth 3 l x00).
Proof.
  unfold le32.
  pose proof (uint8_range (nth 0 l x00)). pose proof (uint8_range (nth 1 l x00)).
  pose proof (uint8_range (nth 2 l x00)). pose proof (uint8_range (nth 3 l x00)).
  rewrite (lor_shiftl_add (uint8 (nth 0 l x00))) by lia.
  rewrite (lor_shiftl_add (uint8 (nth 0 l x00) + _)) by lia.
  rewrite (lor_shiftl_add (uint8 (nth 0 l x00) + _ + _)) by lia.
  lia.
Qed.

(** The byte at offset [lo + i] of the window, as an element of a field. *)
Lemma nth_field (b : list byte) (lo hi : Z) (i : nat) :
  128 <= len b -> 0 <= lo -> lo + Z.of_nat i < hi ->
  nth i (field b lo hi) x00 = field_byte b (lo + Z.of_nat i).
Proof.
  intros Hb Hlo Hi. unfold field_byte, field. rewrite nth_lookup.
  rewrite lookup_take_lt by lia. rewrite lookup_drop.
  f_equal. f_equal. unfold offset, len in *. lia.
Qed.

(** The size is the little-endian value of the window bytes 91 to 94, and
    byte 94 is also the data type: in every decoded record the top byte of
    [FileSize] is [DataType]. *)
Theorem FileSize_top_byte_is_DataType (b : list byte) (r : SAUCE.t) :
  ParseBytes b = ret (Some r, None) ->
  SAUCE.FileSize r
  = uint8 (field_byte b 91) + 2 ^ 8 * uint8 (field_byte b 92)
    + 2 ^ 16 * uint8 (field_byte b 93) + 2 ^ 24 * SAUCE.DataType r /\
  SAUCE.FileSize r / 2 ^ 24 = SAUCE.DataType r /\
  0 <= SAUCE.FileSize r < 2 ^ 32.
Proof.
  intros H. destruct (ParseBytes_inv b r H) as (Hb & _ & ->).
  cbn [decoded SAUCE.FileSize SAUCE.DataType]. rewrite le32_value.
  rewrite (nth_field b 91 95 0), (nth_field b 91 95 1),
    (nth_field b 91 95 2), (nth_field b 91 95 3) by lia.
  change (91 + Z.of_nat 0) with 91. change (91 + Z.of_nat 1) with 92.
  change (91 + Z.of_nat 2) with 93. change (91 + Z.of_nat 3) with 94.
  pose proof (uint8_range (field_byte b 91)).
  pose proof (uint8_range (field_byte b 92)).
  pose proof (uint8_range (field_byte b 93)).
  pose proof (uint8_range (field_byte b 94)).
  split; [reflexivity|]. split; [|lia].
  symmetry. apply (Z.div_unique_pos _ _ _
    (uint8 (field_byte b 91) + 2 ^ 8 * uint8 (field_byte b 92)
     + 2 ^ 16 * uint8 (field_byte b 93))); lia.
Qed.

Lemma FileSize_top_byte_is_DataType_witness :
  exists r, ParseBytes fixture = ret (Some r, None) /\
            SAUCE.FileSize r / 2 ^ 24 = SAUCE.DataType r.
Proof.
  exists (decoded fixture).
  assert (H : ParseBytes fixture = ret (Some (decoded fixture), None))
    by (vm_compute; reflexivity).
  split; [exact H|].
  exact (proj1 (proj2 (FileSize_top_byte_is_DataType _ _ H))).
Defined.

(** In every decoded record [TInfo] has four entries, each the little-endian
    value of its two window bytes and below 65536, and [DataType],
    [FileType] and [Comments] are the bytes at offsets 94, 95 and 104. *)
Theorem decoded_integers (b : list byte) (r : SAUCE.t) :
  ParseBytes b = ret (Some r, None) ->
  SAUCE.TInfo r =
    [ uint8 (field_byte b 96) + 2 ^ 8 * uint8 (field_byte b 97);
      uint8 (field_byte b 98) + 2 ^ 8 * uint8 (field_byte b 99);
      uint8 (field_byte b 100) + 2 ^ 8 * uint8 (field_byte b 101);
      uint8 (field_byte b 102) + 2 ^ 8 * uint8 (field_byte b 103) ] /\
  Forall (fun t => 0 <= t < 2 ^ 16) (SAUCE.TInfo r) /\
  SAUCE.DataType r = uint8 (field_byte b 94) /\
  SAUCE.FileType r = uint8 (field_byte b 95) /\
  SAUCE.Comments r = uint8 (field_byte b 104) /\
  0 <= SAUCE.DataType r <= 255 /\
  0 <= SAUCE.FileType r <= 255 /\
  0 <= SAUCE.Comments r <= 255.
Proof.
  intros H. destruct (ParseBytes_inv b r H) as (Hb & _ & ->).
  cbn [decoded SAUCE.TInfo SAUCE.DataType SAUCE.FileType SAUCE.Comments].
  rewrite !le16_value.
  rewrite (nth_field b 96 98 0), (nth_field b 96 98 1),
    (nth_field b 98 100 0), (nth_field b 98 100 1),
    (nth_field b 100 102 0), (nth_field b 100 102 1),
    (nth_field b 102 104 0), (nth_field b 102 104 1) by lia.
  change (96 + Z.of_nat 0) with 96. change (96 + Z.of_nat 1) with 97.
  change (98 + Z.of_nat 0) with 98. change (98 + Z.of_nat 1) with 99.
  change (100 + Z.of_nat 0) with 100. change (100 + Z.of_nat 1) with 101.
  change (102 + Z.of_nat 0) with 102. change (102 + Z.of_nat 1) with 103.
  pose proof (uint8_range (field_byte b 94)).
  pose proof (uint8_range (field_byte b 95)).
  pose proof (uint8_range (field_byte b 96)).
  pose proof (uint8_range (field_byte b 97)).
  pose proof (uint8_range (field_byte b 98)).
  pose proof (uint8_range (field_byte b 99)).
  pose proof (uint8_range (field_byte b 100)).
  pose proof (uint8_range (field_byte b 101)).
  pose proof (uint8_range (field_byte b 102)).
  pose proof (uint8_range (field_byte b 103)).
  pose proof (uint8_range (field_byte b 104)).
  split; [reflexivity|]. split.
  { repeat (apply List.Forall_cons; [lia|]). apply List.Forall_nil. }
  repeat split; lia.
Qed.

Lemma decoded_integers_witness :
  exists r, ParseBytes fixture = ret (Some r, None) /\
            SAUCE.TInfo r = [80; 25; 0; 0].
Proof.
  exists (decoded fixture).
  assert (H : ParseBytes fixture = ret (Some (decoded fixture), None))
    by (vm_compute; reflexivity).
  split; [exact H|].
  rewrite (proj1 (decoded_integers _ _ H)). vm_compute. reflexivity.
Defined.

(** The flags and the low five bits of the flags byte determine each other:
    [f mod 32 = NonBlink + 2 * LetterSpacing + 8 * AspectRatio], and a byte
    made of a flag, two values in 0..3 and any three top bits decodes to
    them. *)
Theorem TFlags_roundtrip (b : list byte) (r : SAUCE.t) :
  ParseBytes b = ret (Some r, None) ->
  let f := uint8 (field_byte b 105) in
  let t := SAUCE.TFlags r in
  f mod 32 = Z.b2z (TFlags.NonBlink t) + 2 * TFlags.LetterSpacing t
             + 8 * TFlags.AspectRatio t /\
  forall (nb : bool) (ls ar k : Z),
    0 <= ls <= 3 -> 0 <= ar <= 3 ->
    f = Z.b2z nb + 2 * ls + 8 * ar + 32 * k ->
    t = TFlags.mk nb ls ar.
Proof.
  intros H f t. destruct (ParseBytes_inv b r H) as (Hb & _ & ->).
  subst t. cbn [decoded SAUCE.TFlags]. fold f. unfold flagsOf.
  cbn [TFlags.NonBlink TFlags.LetterSpacing TFlags.AspectRatio].
  rewrite !land_1, !land_shiftr_3 by lia.
  change (2 ^ 1) with 2. change (2 ^ 3) with 8.
  split.
  - destruct (Z.eqb_spec (f mod 2) 1) as [E|E]; cbn [Z.b2z];
      revert E; Z.div_mod_to_equations; lia.
  - intros nb ls ar k Hls Har Hf.
    assert (E1 : (f mod 2 =? 1) = nb).
    { destruct nb; cbn [Z.b2z] in Hf;
        [apply Z.eqb_eq|apply Z.eqb_neq]; Z.div_mod_to_equations; lia. }
    assert (E2 : (f / 2) mod 4 = ls).
    { destruct nb; cbn [Z.b2z] in Hf; Z.div_mod_to_equations; lia. }
    assert (E3 : (f / 8) mod 4 = ar).
    { destruct nb; cbn [Z.b2z] in Hf; Z.div_mod_to_equations; lia. }
    rewrite E1, E2, E3. reflexivity.
Qed.

Lemma TFlags_roundtrip_witness :
  exists r, ParseBytes fixture = ret (Some r, None) /\
            SAUCE.TFlags r = TFlags.mk true 2 0.
Proof.
  exists (decoded fixture).
  assert (H : ParseBytes fixture = ret (Some (decoded fixture), None))
    by (vm_compute; reflexivity).
  split; [exact H|].
  apply (proj2 (TFlags_roundtrip _ _ H) true 2 0 0); [lia|lia|].
  vm_compute. reflexivity.
Defined.

(** ** [Parse] and [ParseReader] *)

Lemma len_section_bytes (s : io.SectionReader) :
  section_ok s -> len (section_bytes s) = io.Size s.
Proof.
  intros (Hb & Hl & Hr). unfold section_bytes, io.Size, len in *.
  rewrite length_take, length_drop. lia.
Qed.

(** When [Parse] returns a record, it is the record [ParseBytes] returns on
    the bytes of the section; the reader is left at the end of the section
    after one read, of the last 128 bytes. *)
Theorem Parse_sound (s : io.SectionReader) (r : SAUCE.t) :
  section_ok s ->
  snd (Parse s) = ret (Some r, None) ->
  ParseBytes (section_bytes s) = ret (Some r, None) /\
  io.off (fst (Parse s)) = io.limit s /\
  io.trace (fst (Parse s)) = (io.trace s ++ [(io.limit s - 128, 128)])%list.
Proof.
  intros Hok H.
  destruct (Z_lt_ge_dec (io.Size s) 128) as [H1|H1].
  { rewrite Parse_below_128 in H by assumption. discriminate. }
  destruct (Z_lt_ge_dec (io.Size s) 256) as [H2|H2].
  { rewrite Parse_below_256 in H by lia. discriminate. }
  rewrite Parse_from_256 in * by (assumption || lia).
  cbn [fst snd io.off io.trace] in *.
  split; [|split; reflexivity].
  rewrite <- H. rewrite <- (take_drop (length (section_bytes s) - 128)
                              (section_bytes s)) at 1.
  apply ParseBytes_app.
  pose proof (len_section_bytes s Hok) as L. unfold len in *.
  rewrite length_drop. lia.
Qed.

Lemma Parse_sound_witness :
  ParseBytes (section_bytes (io.NewSectionReader (fixture ++ fixture) 0 256))
  = ret (Some (decoded fixture), None).
Proof.
  apply (Parse_sound (io.NewSectionReader (fixture ++ fixture) 0 256)
           (decoded fixture)).
  - unfold section_ok. repeat split; vm_compute; discriminate.
  - vm_compute. reflexivity.
Defined.

(** [Parse] never writes and reads at most once: the underlying bytes and
    the bounds of the section are unchanged, the only read it can make is of
    128 bytes at 128 before the end, and what it returns depends neither on
    the offset the reader was at nor on what was read before. *)
Theorem Parse_reads_at_most_the_tail (s : io.SectionReader) :
  io.r (fst (Parse s)) = io.r s /\
  io.base (fst (Parse s)) = io.base s /\
  io.limit (fst (Parse s)) = io.limit s /\
  (io.trace (fst (Parse s)) = io.trace s \/
   io.trace (fst (Parse s)) = (io.trace s ++ [(io.limit s - 128, 128)])%list) /\
  forall (off : Z) (trace : list (Z * Z)),
    snd (Parse (io.mk (io.r s) (io.base s) off (io.limit s) trace))
    = snd (Parse s).
Proof.
  assert (G : forall off trace,
    let s' := io.mk (io.r s) (io.base s) off (io.limit s) trace in
    io.r (fst (Parse s')) = io.r s /\
    io.base (fst (Parse s')) = io.base s /\
    io.limit (fst (Parse s')) = io.limit s /\
    (io.trace (fst (Parse s')) = trace \/
     io.trace (fst (Parse s')) = (trace ++ [(io.limit s - 128, 128)])%list) /\
    snd (Parse s') =
      if -128 + io.limit s <? io.base s then ret (None, Some io_errOffset)
      else if -128 + io.limit s - io.base s <? 128
      then ret (None, Some errShortRead)
      else
        let '(got, err) := io.ReadAt (io.r s) 128 (-128 + io.limit s) in
        if bool_decide (err <> None) then ret (None, err)
        else if negb (len got =? 128) then ret (None, Some errShortRead)
        else ParseBytes (got ++ drop (length got) (repeat x00 128))).
  { intros off trace s'. subst s'. unfold Parse, io.Seek.
    change (2 =? io.SeekStart) with false. change (2 =? io.SeekCurrent) with false.
    change (2 =? io.SeekEnd) with true. cbv iota.
    cbn [io.r io.base io.limit io.off io.trace].
    destruct (Z.ltb_spec (-128 + io.limit s) (io.base s)); [auto 10|].
    rewrite bool_decide_eq_false_2 by (intros E; apply E; reflexivity).
    destruct (Z.ltb_spec (-128 + io.limit s - io.base s) 128); [auto 10|].
    unfold io.Read. cbn [io.r io.base io.limit io.off io.trace].
    destruct (Z.leb_spec (io.limit s) (-128 + io.limit s)); [lia|].
    replace (io.limit s - (-128 + io.limit s)) with 128 by lia.
    change (len (repeat x00 128)) with 128. change (128 <? 128) with false.
    cbv iota.
    replace (-128 + io.limit s) with (io.limit s - 128) by lia.
    destruct (io.ReadAt (io.r s) 128 (io.limit s - 128)) as [got err].
    destruct (bool_decide (err <> None)); [cbn; auto 10|].
    destruct (negb (len got =? 128)); cbn; auto 10. }
  destruct s as [data base off limit trace].
  cbn [io.r io.base io.limit io.off io.trace] in *.
  destruct (G off trace) as (G1 & G2 & G3 & G4 & G5).
  repeat split; try assumption.
  intros off' trace'. destruct (G off' trace') as (_ & _ & _ & _ & G5').
  cbn [io.r io.base io.limit io.off io.trace] in *.
  rewrite G5, G5'. reflexivity.
Qed.


(** ** Strings, by position *)

Lemma append_cons (x : ascii) (a b : string) :
  (String x a ++ b)%string = String x (a ++ b).
Proof. reflexivity. Qed.

Lemma length_append (a b : string) :
  String.length (a ++ b) = (String.length a + String.length b)%nat.
Proof.
  induction a as [|c a IH]; [reflexivity|].
  rewrite append_cons. cbn [String.length]. now rewrite IH.
Qed.

Lemma append_assoc (a b c : string) : ((a ++ b) ++ c = a ++ (b ++ c))%string.
Proof.
  induction a as [|x a IH]; [reflexivity|].
  rewrite !append_cons. f_equal. exact IH.
Qed.

Lemma append_empty_r (a : string) : (a ++ "")%string = a.
Proof.
  induction a as [|x a IH]; [reflexivity|].
  rewrite append_cons. f_equal. exact IH.
Qed.

Lemma strbyte_append_r (a b : string) (j : nat) :
  strbyte (a ++ b) (String.length a + j) = strbyte b j.
Proof.
  unfold strbyte. rewrite (Nat.add_comm (String.length a) j).
  now rewrite <- append_correct2.
Qed.

Lemma strbyte_append_l (a b : string) (j : nat) :
  (j < String.length a)%nat -> strbyte (a ++ b) j = strbyte a j.
Proof.
  intros H. unfold strbyte. now rewrite <- append_correct1 by assumption.
Qed.

Lemma substring_append_l (a b : string) :
  substring 0 (String.length a) (a ++ b) = a.
Proof.
  induction a as [|x a IH]; [now destruct b|].
  rewrite append_cons. cbn [String.length substring]. now rewrite IH.
Qed.

Lemma substring_append_skip (a b : string) (n : nat) :
  substring (String.length a) n (a ++ b) = substring 0 n b.
Proof.
  induction a as [|x a IH]; [reflexivity|].
  rewrite append_cons. cbn [String.length substring]. exact IH.
Qed.

Lemma substring_none (s : string) (n : nat) : substring n 0 s = "".
Proof.
  revert n. induction s as [|c s IH]; intros [|n]; simpl; try reflexivity.
  apply IH.
Qed.

Lemma length_substring_le (s : string) (n m : nat) :
  (String.length (substring n m s) <= String.length s)%nat.
Proof.
  revert n m. induction s as [|c s IH]; intros n m.
  - destruct n, m; simpl; lia.
  - destruct n as [|n]; destruct m as [|m]; simpl; try lia.
    + specialize (IH 0%nat m). lia.
    + specialize (IH n 0%nat). lia.
    + specialize (IH n (S m)). lia.
Qed.

Lemma all_in_strbyte (member : Z -> bool) (w : string) (j : nat) :
  all_in member w = true -> (j < String.length w)%nat ->
  member (strbyte w j) = true.
Proof.
  revert j. induction w as [|c w IH]; intros j H Hj; simpl in *; [lia|].
  apply andb_true_iff in H as [Hc Hw].
  destruct j as [|j]; [exact Hc|]. apply (IH j Hw). lia.
Qed.

Lemma all_in_append (member : Z -> bool) (a b : string) :
  all_in member a = true -> all_in member b = true ->
  all_in member (a ++ b) = true.
Proof.
  intros Ha Hb. induction a as [|c a IH]; [exact Hb|].
  rewrite append_cons. cbn [all_in] in *.
  apply andb_true_iff in Ha as [Hc Ha]. rewrite Hc. cbn [andb]. now apply IH.
Qed.

(** ** The loops of [Trim] on padded text *)

Lemma trimLeftLoop_pad (member : Z -> bool) (pad t : string) :
  all_in member pad = true ->
  strings.trimLeftLoop member (pad ++ t) = strings.trimLeftLoop member t.
Proof.
  intros H. induction pad as [|c pad IH]; [reflexivity|].
  rewrite append_cons. cbn [all_in strings.trimLeftLoop] in *.
  apply andb_true_iff in H as [Hc Hp]. rewrite Hc. now apply IH.
Qed.

Lemma trimLeftLoop_stop (member : Z -> bool) (t : string) :
  t = "" \/ member (strbyte t 0) = false ->
  strings.trimLeftLoop member t = t.
Proof.
  intros [->|H]; [reflexivity|]. destruct t as [|c t]; [reflexivity|].
  simpl in *. unfold strbyte in H. simpl in H. now rewrite H.
Qed.

Lemma trimRightLoop_pad (member : Z -> bool) (s : string) (n k : nat) :
  (forall j, (j < k)%nat -> member (strbyte s (n + j)) = true) ->
  strings.trimRightLoop member s (n + k) = strings.trimRightLoop member s n.
Proof.
  induction k as [|k IH]; intros H.
  - now rewrite Nat.add_0_r.
  - rewrite Nat.add_succ_r. cbn [strings.trimRightLoop].
    rewrite (H k) by lia. apply IH. intros j Hj. apply H. lia.
Qed.

Lemma trimRightLoop_stop (member : Z -> bool) (s : string) (n : nat) :
  member (strbyte s n) = false ->
  strings.trimRightLoop member s (S n) = S n.
Proof. intros H. cbn [strings.trimRightLoop]. now rewrite H. Qed.

Lemma trims_of_padded (member : Z -> bool) (padL name padR : string) :
  all_in member padL = true -> all_in member padR = true ->
  clean_ends member name ->
  strings.trimLeftLoop member
    (substring 0
       (strings.trimRightLoop member (padL ++ name ++ padR)
          (String.length (padL ++ name ++ padR)))
       (padL ++ name ++ padR))
  = name.
Proof.
  intros HL HR Hc.
  rewrite <- append_assoc. rewrite (length_append (padL ++ name) padR).
  rewrite trimRightLoop_pad.
  2:{ intros j Hj. rewrite strbyte_append_r. now apply all_in_strbyte. }
  destruct Hc as [->|[Hfirst Hlast]].
  - rewrite append_empty_r.
    replace (String.length padL) with (0 + String.length padL)%nat by lia.
    rewrite trimRightLoop_pad.
    2:{ intros j Hj. cbn [Nat.add]. rewrite strbyte_append_l by assumption.
        now apply all_in_strbyte. }
    cbn [strings.trimRightLoop]. rewrite substring_none. reflexivity.
  - destruct name as [|c name]; [rewrite append_empty_r in *|].
    + cbn in Hfirst.
      replace (String.length padL) with (0 + String.length padL)%nat by lia.
      rewrite trimRightLoop_pad.
      2:{ intros j Hj. cbn [Nat.add]. rewrite strbyte_append_l by assumption.
          now apply all_in_strbyte. }
      cbn [strings.trimRightLoop]. rewrite substring_none. reflexivity.
    + rewrite length_append. cbn [String.length] in *.
      rewrite Nat.add_succ_r, trimRightLoop_stop.
      2:{ rewrite strbyte_append_l by (rewrite length_append; simpl; lia).
          rewrite strbyte_append_r.
          rewrite Nat.sub_succ, Nat.sub_0_r in Hlast. exact Hlast. }
      rewrite <- Nat.add_succ_r.
      change (S (String.length name)) with (String.length (String c name)).
      rewrite <- length_append, substring_append_l.
      rewrite trimLeftLoop_pad by assumption.
      apply trimLeftLoop_stop. right. exact Hfirst.
Qed.

Lemma trimLeftLoop_ext (f g : Z -> bool) (s : string) :
  (forall c, f c = g c) ->
  strings.trimLeftLoop f s = strings.trimLeftLoop g s.
Proof.
  intros E. induction s as [|c s IH]; simpl; [reflexivity|].
  rewrite E, IH. reflexivity.
Qed.

Lemma trimRightLoop_ext (f g : Z -> bool) (s : string) (n : nat) :
  (forall c, f c = g c) ->
  strings.trimRightLoop f s n = strings.trimRightLoop g s n.
Proof.
  intros E. induction n as [|n IH]; simpl; [reflexivity|].
  rewrite E, IH. reflexivity.
Qed.

(** With the cutset of [Font], [Trim] is the two ASCII loops on NUL and
    space. *)
Lemma Trim_fontCutset (s : string) :
  strings.Trim s fontCutset =
    strings.trimLeftLoop isPad
      (substring 0 (strings.trimRightLoop isPad s (String.length s)) s).
Proof.
  unfold strings.Trim. destruct s as [|c s]; [reflexivity|].
  rewrite bool_decide_eq_false_2 by discriminate.
  cbn [orb]. rewrite bool_decide_eq_false_2 by discriminate.
  change ((String.length fontCutset =? 1)%nat) with false. cbn [andb].
  change (strings.makeASCIISet fontCutset)
    with (Some (fun x => (x =? 0) || ((x =? 32) || false))).
  unfold strings.trimLeftASCII, strings.trimRightASCII.
  assert (E : forall x, (x =? 0) || ((x =? 32) || false) = isPad x).
  { intros x. unfold isPad. now rewrite orb_false_r. }
  rewrite (trimRightLoop_ext _ isPad _ _ E).
  apply trimLeftLoop_ext, E.
Qed.

(** ** [Font] *)

(** A font name that neither starts nor ends with NUL or space, with NUL
    and space bytes before and after it in [TInfos], is what [Font] returns;
    a [TInfos] of NUL and space bytes only gives the empty name. *)
Theorem Font_of_padded_name (r : SAUCE.t) (padL name padR : string) :
  SAUCE.TInfos r = list_byte_of_string (padL ++ name ++ padR) ->
  all_in isPad padL = true -> all_in isPad padR = true ->
  clean_ends isPad name ->
  Font r = name.
Proof.
  intros HT HL HR Hc. unfold Font.
  rewrite HT, string_of_list_byte_of_string, Trim_fontCutset.
  now apply trims_of_padded.
Qed.

Lemma Font_of_padded_name_witness :
  Font (decoded (put 106 (list_byte_of_string "IBM VGA") fixture)) = "IBM VGA".
Proof.
  apply (Font_of_padded_name _ ""
           "IBM VGA" (string_of_list_byte (repeat x00 15))).
  - vm_compute. reflexivity.
  - reflexivity.
  - vm_compute. reflexivity.
  - right. split; vm_compute; reflexivity.
Defined.

(** ** [TrimSpace] on padded text *)

Lemma asciiSpace_notText (c : Z) :
  strings.asciiSpace c = true -> (utf8.RuneSelf <=? c) = false.
Proof.
  unfold strings.asciiSpace, utf8.RuneSelf. intros H.
  apply Z.leb_gt.
  repeat (apply orb_true_iff in H as [H|H]); apply Z.eqb_eq in H; lia.
Qed.

Lemma notText_false (c : Z) :
  notText c = false ->
  (utf8.RuneSelf <=? c) = false /\ strings.asciiSpace c = false.
Proof. unfold notText. intros H. apply orb_false_iff in H. tauto. Qed.

Lemma scanLeft_spaces (w rest : string) (k : nat) :
  all_in strings.asciiSpace w = true ->
  strings.scanLeft (w ++ rest) k
  = strings.scanLeft rest (k + String.length w).
Proof.
  revert k. induction w as [|c w IH]; intros k H.
  - cbn [String.length]. now rewrite Nat.add_0_r.
  - rewrite append_cons. cbn [all_in strings.scanLeft String.length] in *.
    apply andb_true_iff in H as [Hc Hw].
    rewrite (asciiSpace_notText _ Hc), Hc, IH by assumption.
    f_equal. lia.
Qed.

Lemma scanLeft_stop (rest : string) (k : nat) :
  rest = "" \/ notText (strbyte rest 0) = false ->
  strings.scanLeft rest k = (k, false).
Proof.
  intros [->|H]; [reflexivity|]. destruct rest as [|c rest]; [reflexivity|].
  cbn [strings.scanLeft]. change (strbyte (String c rest) 0) with (byteval c) in H.
  destruct (notText_false _ H) as [-> ->]. reflexivity.
Qed.

Lemma scanRight_spaces (s : string) (start n k : nat) :
  (start <= n)%nat ->
  (forall j, (j < k)%nat -> strings.asciiSpace (strbyte s (n + j)) = true) ->
  strings.scanRight s start (n + k) = strings.scanRight s start n.
Proof.
  intros Hs. induction k as [|k IH]; intros H.
  - now rewrite Nat.add_0_r.
  - rewrite Nat.add_succ_r. cbn [strings.scanRight].
    destruct (Nat.leb_spec (S (n + k)) start); [lia|].
    rewrite (asciiSpace_notText _ (H k ltac:(lia))), (H k) by lia.
    apply IH. intros j Hj. apply H. lia.
Qed.

Lemma scanRight_stop (s : string) (start n : nat) :
  (start <= n)%nat -> notText (strbyte s n) = false ->
  strings.scanRight s start (S n) = (S n, false).
Proof.
  intros Hs H. cbn [strings.scanRight].
  destruct (Nat.leb_spec (S n) start); [lia|].
  destruct (notText_false _ H) as [-> ->]. reflexivity.
Qed.

Lemma scanRight_at_start (s : string) (n : nat) :
  strings.scanRight s n n = (n, false).
Proof.
  destruct n as [|n]; [reflexivity|]. cbn [strings.scanRight].
  destruct (Nat.leb_spec (S n) (S n)); [reflexivity|lia].
Qed.

(** A string of ASCII white space is trimmed to nothing. *)
Lemma TrimSpace_white (w : string) :
  all_in strings.asciiSpace w = true -> strings.TrimSpace w = "".
Proof.
  intros H. unfold strings.TrimSpace.
  rewrite <- (append_empty_r w) at 1.
  rewrite scanLeft_spaces by assumption.
  cbn [strings.scanLeft Nat.add].
  rewrite scanRight_at_start, Nat.sub_diag. apply substring_none.
Qed.

(** [TrimSpace] removes ASCII white space around a text whose first and last
    bytes are ASCII and not white space, and only that. *)
Lemma TrimSpace_of_padded (wl t wr : string) :
  all_in strings.asciiSpace wl = true ->
  all_in strings.asciiSpace wr = true ->
  clean_ends notText t ->
  strings.TrimSpace (wl ++ t ++ wr) = t.
Proof.
  intros HL HR Hc.
  destruct t as [|c t].
  { change (wl ++ "" ++ wr)%string with (wl ++ wr)%string.
    apply TrimSpace_white, all_in_append; assumption. }
  unfold strings.TrimSpace.
  rewrite scanLeft_spaces by assumption. cbn [Nat.add].
  destruct Hc as [Hc|[Hfirst Hlast]]; [discriminate|].
  rewrite (scanLeft_stop (String c t ++ wr)).
  2:{ right. rewrite append_cons. exact Hfirst. }
  rewrite <- append_assoc, (length_append (wl ++ String c t) wr).
  rewrite scanRight_spaces.
  2:{ rewrite length_append. lia. }
  2:{ intros j Hj. rewrite strbyte_append_r. now apply all_in_strbyte. }
  rewrite length_append. cbn [String.length] in *.
  rewrite Nat.add_succ_r, scanRight_stop.
  2:{ lia. }
  2:{ rewrite strbyte_append_l by (rewrite length_append; simpl; lia).
      rewrite strbyte_append_r.
      rewrite Nat.sub_succ, Nat.sub_0_r in Hlast. exact Hlast. }
  replace (S (String.length wl + String.length t) - String.length wl)%nat
    with (String.length (String c t)) by (simpl; lia).
  rewrite append_assoc, substring_append_skip.
  apply substring_append_l.
Qed.

(** ** The text fields *)

(** A title, author or group that starts and ends with ASCII bytes other than
    white space, written into its field with ASCII white space before or
    after it, is decoded as written; a field of white space only is decoded
    as the empty string. *)
Theorem text_fields_roundtrip (b : list byte) (r : SAUCE.t) :
  ParseBytes b = ret (Some r, None) ->
  forall wl t wr : string,
    all_in strings.asciiSpace wl = true ->
    all_in strings.asciiSpace wr = true ->
    clean_ends notText t ->
    (field b 7 41 = list_byte_of_string (wl ++ t ++ wr) -> SAUCE.Title r = t) /\
    (field b 41 61 = list_byte_of_string (wl ++ t ++ wr) -> SAUCE.Author r = t) /\
    (field b 61 81 = list_byte_of_string (wl ++ t ++ wr) -> SAUCE.Group r = t).
Proof.
  intros H wl t wr HL HR Hc. destruct (ParseBytes_inv b r H) as (_ & _ & ->).
  cbn [decoded SAUCE.Title SAUCE.Author SAUCE.Group].
  repeat split; intros ->; rewrite string_of_list_byte_of_string;
    now apply TrimSpace_of_padded.
Qed.

Lemma text_fields_roundtrip_witness :
  exists r, ParseBytes fixture = ret (Some r, None) /\
            SAUCE.Title r = "Test Title".
Proof.
  exists (decoded fixture).
  assert (H : ParseBytes fixture = ret (Some (decoded fixture), None))
    by (vm_compute; reflexivity).
  split; [exact H|].
  apply (text_fields_roundtrip _ _ H ""
           "Test Title" (string_of_list_byte (repeat " "%byte 24))).
  - reflexivity.
  - vm_compute. reflexivity.
  - right. split; vm_compute; reflexivity.
  - vm_compute. reflexivity.
Defined.

Lemma length_strdrop_le (i : nat) (s : string) :
  (String.length (strdrop i s) <= String.length s)%nat.
Proof. apply length_substring_le. Qed.

Lemma length_TrimLeftFunc_le (s : string) (f : Z -> bool) :
  (String.length (strings.TrimLeftFunc s f) <= String.length s)%nat.
Proof.
  unfold strings.TrimLeftFunc.
  destruct (strings.indexFunc s f false =? -1); [simpl; lia|].
  apply length_strdrop_le.
Qed.

Lemma length_TrimRightFunc_le (s : string) (f : Z -> bool) :
  (String.length (strings.TrimRightFunc s f) <= String.length s)%nat.
Proof. apply length_substring_le. Qed.

(** [TrimSpace] returns a part of its argument. *)
Lemma length_TrimSpace_le (s : string) :
  (String.length (strings.TrimSpace s) <= String.length s)%nat.
Proof.
  unfold strings.TrimSpace, strings.TrimFunc.
  destruct (strings.scanLeft s 0) as [start [|]].
  - pose proof (length_TrimRightFunc_le
      (strings.TrimLeftFunc (strdrop start s) unicode.IsSpace) unicode.IsSpace).
    pose proof (length_TrimLeftFunc_le (strdrop start s) unicode.IsSpace).
    pose proof (length_strdrop_le start s). lia.
  - destruct (strings.scanRight s start (String.length s)) as [stop [|]].
    + pose proof (length_TrimRightFunc_le
        (substring start (stop - start) s) unicode.IsSpace).
      pose proof (length_substring_le s start (stop - start)). lia.
    + apply length_substring_le.
Qed.

(** The text fields of a decoded record are never longer than their fields
    in the window: 34 bytes for the title, 20 for the author and for the
    group. *)
Theorem text_fields_bounded (b : list byte) (r : SAUCE.t) :
  ParseBytes b = ret (Some r, None) ->
  (String.length (SAUCE.Title r) <= 34)%nat /\
  (String.length (SAUCE.Author r) <= 20)%nat /\
  (String.length (SAUCE.Group r) <= 20)%nat.
Proof.
  intros H. destruct (ParseBytes_inv b r H) as (Hb & _ & ->).
  cbn [decoded SAUCE.Title SAUCE.Author SAUCE.Group].
  pose proof (length_TrimSpace_le (string_of_list_byte (field b 7 41))) as H1.
  pose proof (length_TrimSpace_le (string_of_list_byte (field b 41 61))) as H2.
  pose proof (length_TrimSpace_le (string_of_list_byte (field b 61 81))) as H3.
  rewrite length_string_of_list_byte, length_field in H1, H2, H3 by lia.
  repeat split; lia.
Qed.

Lemma text_fields_bounded_witness :
  exists r, ParseBytes fixture = ret (Some r, None) /\
            (String.length (SAUCE.Title r) <= 34)%nat.
Proof.
  exists (decoded fixture).
  assert (H : ParseBytes fixture = ret (Some (decoded fixture), None))
    by (vm_compute; reflexivity).
  split; [exact H|].
  exact (proj1 (text_fields_bounded _ _ H)).
Defined.

(** ** [Dump] *)

Section ReportProperties.

Variable DataType : gomap string.
Variable FileType : gomap (gomap string).
Variables DataTypeBinaryText DataTypeXBIN DataTypeExecutable : Z.



End ReportProperties.

(** ** Calendar dates through [time.Date] and back *)

Lemma absDate_halves (abs : Z) :
  time.absDate abs =
    let '(year, yday) := absYearDay (abs / time.secondsPerDay) in
    let '(m, d) := monthDayOf (time.isLeap year) yday in
    (year, m, d).
Proof.
  unfold time.absDate, absYearDay, monthDayOf. cbv zeta.
  match goal with |- context [time.isLeap ?y && (?d =? 31 + 29 - 1)] =>
    destruct (time.isLeap y && (d =? 31 + 29 - 1)); [reflexivity|];
    destruct (time.isLeap y && (31 + 29 - 1 <? d))
  end;
  match goal with |- context [?a <=? ?b] => destruct (a <=? b) end;
  reflexivity.
Qed.

Lemma isLeap_mod (y : Z) :
  0 <= y ->
  time.isLeap y
  = (y mod 4 =? 0) && (negb (y mod 100 =? 0) || (y mod 400 =? 0)).
Proof.
  intros Hy. unfold time.isLeap. rewrite !Z.rem_mod_nonneg by lia. reflexivity.
Qed.

(** The first half of [absDate] inverts [daysSinceEpoch]. *)
Lemma absYearDay_of (y yday : Z) :
  0 <= y -> 0 <= yday -> yday < 365 + Z.b2z (time.isLeap y) ->
  absYearDay (time.daysSinceEpoch y + yday) = (y, yday).
Proof.
  intros Hy H0 H1. rewrite isLeap_mod in H1 by assumption.
  unfold absYearDay, time.daysSinceEpoch.
  unfold time.daysPer400Years, time.daysPer100Years, time.daysPer4Years,
    time.absoluteZeroYear.
  rewrite !Z.shiftr_div_pow2 by lia. change (2 ^ 2) with 4.
  cbv zeta.
  change (365 * 400 + 97) with 146097. change (365 * 100 + 24) with 36524.
  change (365 * 4 + 1) with 1461.
  set (Y := y - -292277022399).
  assert (HY : 0 <= Y) by (unfold Y; lia).
  set (a := Y / 400).
  set (r1 := Y - 400 * a).
  set (b := r1 / 100).
  set (r2 := r1 - 100 * b).
  set (c := r2 / 4).
  set (e := r2 - 4 * c).
  assert (Ha : 0 <= a /\ 0 <= r1 < 400)
    by (unfold r1, a; Z.div_mod_to_equations; lia).
  assert (Hb : 0 <= b <= 3 /\ 0 <= r2 < 100)
    by (unfold r2, b; Z.div_mod_to_equations; lia).
  assert (Hc : 0 <= c <= 24 /\ 0 <= e < 4)
    by (unfold e, c; Z.div_mod_to_equations; lia).
  assert (Ey : y = 400 * (a - 730692556) + 100 * b + 4 * c + e + 1)
    by (unfold e, r2, r1, Y in *; lia).
  assert (L : yday < 365 +
                (if (e =? 3) && (negb (c =? 24) || (b =? 3)) then 1 else 0)).
  { replace ((e =? 3) && (negb (c =? 24) || (b =? 3)))
      with ((y mod 4 =? 0) && (negb (y mod 100 =? 0) || (y mod 400 =? 0)));
      [destruct ((y mod 4 =? 0) && (negb (y mod 100 =? 0) || (y mod 400 =? 0)));
       simpl in H1; lia|].
    assert (E4 : y mod 4 = (e + 1) mod 4) by (Z.div_mod_to_equations; lia).
    assert (E100 : y mod 100 = (4 * c + e + 1) mod 100)
      by (Z.div_mod_to_equations; lia).
    assert (E400 : y mod 400 = (100 * b + 4 * c + e + 1) mod 400)
      by (Z.div_mod_to_equations; lia).
    rewrite E4, E100, E400.
    destruct (Z.eqb_spec e 3), (Z.eqb_spec c 24), (Z.eqb_spec b 3);
      cbn [andb orb negb];
      repeat match goal with
             | |- context [?x mod ?k =? 0] => destruct (Z.eqb_spec (x mod k) 0)
             end;
      cbn [andb orb negb]; try reflexivity; exfalso;
      Z.div_mod_to_equations; lia. }
  clearbody a r1 b r2 c e. clear H1 HY. clearbody Y.
  assert (B : yday <= 364 \/
              (yday = 365 /\ e = 3 /\ (c <> 24 \/ b = 3))).
  { destruct (Z.eqb_spec e 3), (Z.eqb_spec c 24), (Z.eqb_spec b 3);
      cbn [andb orb negb] in L; lia. }
  clear L.
  assert (S1 : (146097 * a + 36524 * b + 1461 * c + 365 * e + yday) / 146097 = a).
  { symmetry.
    apply (Z.div_unique_pos _ 146097 a (36524 * b + 1461 * c + 365 * e + yday));
      lia. }
  rewrite S1.
  replace (146097 * a + 36524 * b + 1461 * c + 365 * e + yday - 146097 * a)
    with (36524 * b + 1461 * c + 365 * e + yday) by lia.
  assert (S2 : (36524 * b + 1461 * c + 365 * e + yday) / 36524
               - (36524 * b + 1461 * c + 365 * e + yday) / 36524 / 4 = b).
  { destruct (Z.eq_dec (1461 * c + 365 * e + yday) 36524) as [E|E].
    - assert (b = 3) by lia. subst b.
      replace (36524 * 3 + 1461 * c + 365 * e + yday) with (4 * 36524) by lia.
      reflexivity.
    - assert (Q : (36524 * b + 1461 * c + 365 * e + yday) / 36524 = b).
      { symmetry.
        apply (Z.div_unique_pos _ 36524 b (1461 * c + 365 * e + yday)); lia. }
      rewrite Q. rewrite (Z.div_small b 4) by lia. lia. }
  rewrite S2.
  replace (36524 * b + 1461 * c + 365 * e + yday - 36524 * b)
    with (1461 * c + 365 * e + yday) by lia.
  assert (S3 : (1461 * c + 365 * e + yday) / 1461 = c).
  { symmetry. apply (Z.div_unique_pos _ 1461 c (365 * e + yday)); lia. }
  rewrite S3.
  replace (1461 * c + 365 * e + yday - 1461 * c) with (365 * e + yday) by lia.
  assert (S4 : (365 * e + yday) / 365 - (365 * e + yday) / 365 / 4 = e).
  { destruct (Z.eq_dec yday 365) as [E|E].
    - assert (e = 3) by lia. subst e yday. reflexivity.
    - assert (Q : (365 * e + yday) / 365 = e).
      { symmetry. apply (Z.div_unique_pos _ 365 e yday); lia. }
      rewrite Q. rewrite (Z.div_small e 4) by lia. lia. }
  rewrite S4. f_equal; lia.
Qed.

Lemma In_Zrange (lo x : Z) (n : nat) :
  lo <= x -> x < lo + Z.of_nat n -> In x (Zrange lo n).
Proof.
  intros H1 H2. unfold Zrange. apply in_map_iff.
  exists (Z.to_nat (x - lo)). split; [lia|]. apply in_seq. lia.
Qed.

Lemma monthLength_range (leap : bool) (m : Z) : 28 <= monthLength leap m <= 31.
Proof.
  unfold monthLength. destruct (m =? 2); [destruct leap; lia|].
  destruct ((m =? 4) || (m =? 6) || (m =? 9) || (m =? 11)); lia.
Qed.

(** The second half of [absDate] inverts [yearDay], on the days that
    exist. *)
Lemma monthDayOf_yearDay (leap : bool) (m d : Z) :
  1 <= m <= 12 -> 1 <= d <= monthLength leap m ->
  monthDayOf leap (yearDay leap m d) = (m, d) /\
  0 <= yearDay leap m d < 365 + Z.b2z leap.
Proof.
  intros Hm Hd.
  assert (C : monthDay_roundtrip_ok leap = true)
    by (destruct leap; vm_compute; reflexivity).
  unfold monthDay_roundtrip_ok in C.
  rewrite forallb_forall in C. specialize (C m (In_Zrange 1 m 12 ltac:(lia) ltac:(lia))).
  rewrite forallb_forall in C.
  pose proof (monthLength_range leap m).
  specialize (C d (In_Zrange 1 d (Z.to_nat (monthLength leap m))
                     ltac:(lia) ltac:(lia))).
  destruct (monthDayOf leap (yearDay leap m d)) as [m' d'].
  repeat (apply andb_true_iff in C as [C ?]).
  split; [f_equal; lia|lia].
Qed.

(** The absolute time of a date with its month in 1..12. *)
Lemma abs_Date (y m d : Z) :
  1 <= m <= 12 ->
  time.abs (time.Date y m d 0 0 0 0)
  = (time.daysSinceEpoch y + yearDay (time.isLeap y) m d) * time.secondsPerDay.
Proof.
  intros Hm. unfold time.abs, time.Date. rewrite !norm_floor by lia.
  rewrite (Z.div_small (m - 1) 12), (Z.mod_small (m - 1) 12) by lia.
  change (0 / 1000000000) with 0. change (0 mod 1000000000) with 0.
  change (0 + 0) with 0. change (0 / 60) with 0. change (0 mod 60) with 0.
  change (0 + 0) with 0. change (0 / 24) with 0. change (0 mod 24) with 0.
  rewrite !Z.add_0_r. cbv zeta. cbn [time.unix].
  replace (m - 1 + 1) with m by lia. unfold yearDay.
  assert (K : time.absoluteToInternal + time.internalToUnix
              + (time.unixToInternal + time.internalToAbsolute) = 0)
    by (vm_compute; reflexivity).
  destruct (time.isLeap y && (time.March <=? m)); lia.
Qed.

(** Year, month and day of an existing day come back from the [Time] that
    [time.Date] makes of them. *)
Lemma Time_Date_of_Date (y m d : Z) :
  0 <= y -> 1 <= m <= 12 -> 1 <= d <= daysIn y m ->
  time.Time_Date (time.Date y m d 0 0 0 0) = (y, m, d).
Proof.
  intros Hy Hm Hd.
  assert (Hd' : 1 <= d <= monthLength (time.isLeap y) m) by exact Hd.
  destruct (monthDayOf_yearDay (time.isLeap y) m d Hm Hd') as [R B].
  pose proof (abs_Date y m d Hm) as E.
  unfold time.Time_Date. rewrite E, absDate_halves.
  rewrite Z.div_mul by (unfold time.secondsPerDay; lia).
  rewrite absYearDay_of by lia. rewrite R. reflexivity.
Qed.

(** A date field that holds an existing day as eight digits, year, month and
    day, decodes to that day. *)
Theorem Date_roundtrip (b : list byte) (r : SAUCE.t) (y m d : Z) :
  ParseBytes b = ret (Some r, None) ->
  decimal (substring 0 4 (string_of_list_byte (field b 82 90))) = Some y ->
  decimal (substring 4 2 (string_of_list_byte (field b 82 90))) = Some m ->
  decimal (substring 6 2 (string_of_list_byte (field b 82 90))) = Some d ->
  0 <= y -> 1 <= m <= 12 -> 1 <= d <= daysIn y m ->
  time.Time_Date (SAUCE.Date r) = (y, m, d).
Proof.
  intros H Ey Em Ed Hy Hm Hd.
  destruct (ParseBytes_inv b r H) as (Hb & _ & ->).
  cbn [decoded SAUCE.Date]. unfold dateOf.
  assert (L : String.length (string_of_list_byte (field b 82 90)) = 8%nat)
    by (rewrite length_string_of_list_byte, length_field by lia; reflexivity).
  rewrite !Atoi_decimal_or_zero
    by (rewrite length_substring by (rewrite L; simpl; lia); lia).
  unfold decimal_or_zero. rewrite Ey, Em, Ed. cbn [default].
  now apply Time_Date_of_Date.
Qed.

Lemma Date_roundtrip_witness :
  time.Time_Date (SAUCE.Date (decoded fixture)) = (2023, 6, 15).
Proof.
  apply (Date_roundtrip fixture (decoded fixture) 2023 6 15);
    try (vm_compute; reflexivity); try lia.
  vm_compute. split; discriminate.
Defined.









(** ** What [Font] leaves *)

Lemma strbyte_substring (s : string) (k n j : nat) :
  (j < n)%nat -> (k + n <= String.length s)%nat ->
  strbyte (substring k n s) j = strbyte s (k + j).
Proof.
  revert k n j. induction s as [|c s IH]; intros k n j Hj Hk;
    cbn [String.length] in Hk; [lia|].
  destruct k as [|k].
  - destruct n as [|n]; [lia|]. cbn [substring Nat.add].
    destruct j as [|j]; [reflexivity|].
    unfold strbyte in *. cbn [String.get]. apply (IH 0%nat n j); lia.
  - cbn [substring Nat.add]. rewrite IH by lia.
    unfold strbyte. reflexivity.
Qed.

Lemma substring_split (s : string) (k : nat) :
  (k <= String.length s)%nat ->
  s = (substring 0 k s ++ substring k (String.length s - k) s)%string.
Proof.
  revert k. induction s as [|c s IH]; intros k Hk; cbn [String.length] in *.
  - destruct k; [reflexivity|lia].
  - destruct k as [|k].
    + cbn [substring Nat.sub]. change ("" ++ ?x)%string with x.
      now rewrite substring_all.
    + cbn [substring Nat.sub]. rewrite append_cons. f_equal. apply IH. lia.
Qed.

Lemma all_in_of_strbyte (member : Z -> bool) (w : string) :
  (forall j, (j < String.length w)%nat -> member (strbyte w j) = true) ->
  all_in member w = true.
Proof.
  induction w as [|c w IH]; intros H; [reflexivity|].
  cbn [all_in]. apply andb_true_iff. split.
  - apply (H 0%nat). simpl. lia.
  - apply IH. intros j Hj. apply (H (S j)). simpl. lia.
Qed.

Lemma trimRightLoop_spec (member : Z -> bool) (s : string) (n : nat) :
  let k := strings.trimRightLoop member s n in
  (k <= n)%nat /\
  (forall j, (k <= j)%nat -> (j < n)%nat -> member (strbyte s j) = true) /\
  (k = 0%nat \/ member (strbyte s (k - 1)) = false).
Proof.
  induction n as [|n IH]; cbn [strings.trimRightLoop].
  - repeat split; [lia|intros; lia|left; reflexivity].
  - destruct (member (strbyte s n)) eqn:E.
    + destruct IH as (I1 & I2 & I3). repeat split; [lia| |exact I3].
      intros j Hk Hj. destruct (Nat.eq_dec j n) as [->|Hne]; [exact E|].
      apply I2; lia.
    + repeat split; [lia|intros; lia|right].
      rewrite Nat.sub_succ, Nat.sub_0_r. exact E.
Qed.

Lemma trimLeftLoop_split (member : Z -> bool) (t : string) :
  exists pre,
    t = (pre ++ strings.trimLeftLoop member t)%string /\
    all_in member pre = true /\
    (strings.trimLeftLoop member t = "" \/
     member (strbyte (strings.trimLeftLoop member t) 0) = false).
Proof.
  induction t as [|c t (pre & E & A & F)]; cbn [strings.trimLeftLoop].
  - exists "". repeat split. left. reflexivity.
  - destruct (member (byteval c)) eqn:M.
    + exists (String c pre). rewrite append_cons, <- E.
      cbn [all_in]. rewrite M, A. repeat split. exact F.
    + exists "". repeat split. right. exact M.
Qed.

(** [Font] returns the part of [TInfos] between its leading and trailing NUL
    and space bytes: what it returns neither starts nor ends with NUL or
    space, and only NUL and space bytes were removed around it. *)
Theorem Font_is_trimmed (r : SAUCE.t) :
  exists padL padR : string,
    string_of_list_byte (SAUCE.TInfos r) = (padL ++ Font r ++ padR)%string /\
    all_in isPad padL = true /\
    all_in isPad padR = true /\
    clean_ends isPad (Font r) /\
    (String.length (Font r) <= length (SAUCE.TInfos r))%nat.
Proof.
  unfold Font. rewrite Trim_fontCutset.
  rewrite <- (length_string_of_list_byte (SAUCE.TInfos r)).
  set (s := string_of_list_byte (SAUCE.TInfos r)).
  destruct (trimRightLoop_spec isPad s (String.length s)) as (K1 & K2 & K3).
  set (k := strings.trimRightLoop isPad s (String.length s)) in *.
  destruct (trimLeftLoop_split isPad (substring 0 k s)) as (pre & E & A & F).
  set (name := strings.trimLeftLoop isPad (substring 0 k s)) in *.
  assert (Lk : String.length (substring 0 k s) = k)
    by (apply length_substring; lia).
  assert (Ln : (String.length pre + String.length name = k)%nat)
    by (rewrite <- length_append, <- E; exact Lk).
  exists pre, (substring k (String.length s - k) s).
  split; [|split; [exact A|split; [|split]]].
  - rewrite <- append_assoc, <- E. apply substring_split. exact K1.
  - apply all_in_of_strbyte. intros j Hj.
    rewrite length_substring in Hj by lia.
    rewrite strbyte_substring by lia. apply K2; lia.
  - destruct F as [F|F]; [left; exact F|].
    clearbody name. destruct name as [|c nm]; [left; reflexivity|].
    right. split; [exact F|].
    cbn [String.length] in *. rewrite Nat.sub_succ, Nat.sub_0_r.
    rewrite <- (strbyte_append_r pre (String c nm)), <- E.
    rewrite strbyte_substring by lia. cbn [Nat.add].
    destruct K3 as [K3|K3]; [lia|].
    replace (String.length pre + String.length nm)%nat with (k - 1)%nat by lia.
    exact K3.
  - lia.
Qed.
